(** * FormattedText: the placeholder protocol between Marked and React

    A shallow embedding of [src/FormattedText.tsx].  The renderer hands
    Marked strings of the shape [{{index}}] instead of markup, keeps the
    React elements in a side array, and [getElements] later walks such a
    string and puts the elements back.

    Strings are sequences of code units (here [ascii], the 8-bit range);
    a JavaScript array is a finite map from property keys to values with
    an explicit [length]; mutation of [this] is state passing.  The two
    packages the file imports, [he] and [marked], are parameters. *)

From Stdlib Require Import NArith ZArith Ascii String.
From Stdlib Require Import DecimalString DecimalPos DecimalN.
From stdpp Require Import strings gmap.

Local Open Scope string_scope.
Local Open Scope N_scope.

(** ** Strings *)

Definition is_digit (c : ascii) : bool :=
  (48 <=? N_of_ascii c) && (N_of_ascii c <=? 57).

(** [s.length] *)
Abbreviation strlen := String.length.

(** [s.substr(0, n)] *)
Fixpoint substr_to (n : nat) (s : string) : string :=
  match n, s with
  | S n', String c s' => String c (substr_to n' s')
  | _, _ => ""
  end.

(** [s.substr(n)] *)
Fixpoint substr_from (n : nat) (s : string) : string :=
  match n, s with
  | S n', String _ s' => substr_from n' s'
  | _, _ => s
  end.

Arguments substr_to : simpl never.
Arguments substr_from : simpl never.

(** [s.startsWith(p)] *)
Definition startsWith (s p : string) : bool := String.prefix p s.
Arguments startsWith : simpl never.

(** [s.indexOf(p)], counted from [i]; [-1] when [p] does not occur. *)
Fixpoint indexOf_from (i : Z) (s p : string) : Z :=
  if startsWith s p then i
  else match s with
       | "" => (-1)%Z
       | String _ s' => indexOf_from (i + 1)%Z s' p
       end.

Definition indexOf (s p : string) : Z := indexOf_from 0%Z s p.

Fixpoint all_digits (s : string) : bool :=
  match s with
  | String c s' => is_digit c && all_digits s'
  | "" => true
  end.

(** The longest prefix of digits, and what follows it. *)
Fixpoint span_digits (s : string) : string * string :=
  match s with
  | String c s' =>
      if is_digit c
      then let '(ds, r) := span_digits s' in (String c ds, r)
      else ("", s)
  | "" => ("", "")
  end.

(** [s.match(/\d+/)[0]]: the first maximal run of digits of [s] (empty
    when [s] has no digit, where the source would read [null[0]]). *)
Fixpoint digit_run (s : string) : string :=
  match s with
  | String c s' => if is_digit c then fst (span_digits s) else digit_run s'
  | "" => ""
  end.

(** One match of [/^{{\d+}}/] against [s]: the matched token and the rest
    of [s].  [\d+] is greedy and must be followed by a closing brace, so
    the only candidate is the whole run of digits. *)
Definition exec_token (s : string) : option (string * string) :=
  if startsWith s "{{" then
    let '(ds, r) := span_digits (substr_from 2 s) in
    if negb (String.eqb ds "") && startsWith r "}}"
    then Some ("{{" +:+ ds +:+ "}}", substr_from 2 r)
    else None
  else None.

(** ** Numbers *)

(** The mathematical value of a string of decimal digits. *)
Definition decimal_value (ds : string) : N :=
  match NilEmpty.uint_of_string ds with
  | Some d => N.of_uint d
  | None => 0
  end.

(** Rounding of a natural number to the nearest double, ties to even, as
    the engines do it.  A double that is an integer is kept as its value,
    which also names the property it selects on an object; the first power
    of two beyond the finite doubles, [2^1024], stands for [Infinity]. *)
Definition Infinity : N := 2 ^ 1024.

Definition to_double (v : N) : N :=
  if v <? 2 ^ 53 then v
  else
    let e := N.log2 v - 52 in
    let q := N.shiftr v e in
    let r := v mod 2 ^ e in
    let half := 2 ^ (e - 1) in
    let q' := if (half <? r) || ((r =? half) && N.odd q) then q + 1 else q in
    N.min Infinity (N.shiftl q' e).

(** [Number(ds)] for a string of decimal digits. *)
Definition Number (ds : string) : N := to_double (decimal_value ds).

(** [`${n}`] for an integer below [10^21], such as an array length or a
    heading level. *)
Definition toString (n : N) : string := NilEmpty.string_of_uint (N.to_uint n).

(** ** An entity decoder to run the definitions with *)

(** The decoder of the [he] package is a parameter of the development.
    Where a concrete one is needed this one is used: it decodes the five
    entities [&amp;], [&lt;], [&gt;], [&quot;] and [&#39;] and leaves all
    other text as it is, in one pass from left to right. *)
Definition entity_at (s : string) : option (ascii * nat) :=
  if startsWith s "&amp;" then Some ("&"%char, 5%nat)
  else if startsWith s "&lt;" then Some ("<"%char, 4%nat)
  else if startsWith s "&gt;" then Some (">"%char, 4%nat)
  else if startsWith s "&quot;" then Some (ascii_of_N 34, 6%nat)
  else if startsWith s "&#39;" then Some (ascii_of_N 39, 5%nat)
  else None.

(** [skip] counts the code units of the current entity still to be passed
    over. *)
Fixpoint unescape_from (skip : nat) (s : string) : string :=
  match s with
  | String c s' =>
      match skip with
      | S skip' => unescape_from skip' s'
      | O =>
          match entity_at (String c s') with
          | Some (d, n) => String d (unescape_from (n - 1) s')
          | None => String c (unescape_from 0 s')
          end
      end
  | "" => ""
  end.

Definition unescape_entities (s : string) : string := unescape_from 0 s.

(** ** React elements *)

Section FormattedText.

(** The type of the host's zero-argument callbacks ([onImageLoad]). *)
Context {Callback : Type}.

(** [He.unescape], the entity decoder of the [he] package. *)
Variable unescape : string -> string.

Inductive AttrValue :=
| AString (s : string)
| AStyle (textAlign : string)          (* [{ textAlign: ... }] *)
| AArrow (callee : Callback).          (* [() => callee()] *)

(** What a JSX expression evaluates to: an element with its tag, [key],
    remaining attributes and children; a string child; an array child. *)
#[local] Unset Elimination Schemes.
Inductive ReactNode :=
| JsxElement (tag : string) (key : option N)
             (attrs : list (string * AttrValue)) (children : list ReactNode)
| JsxText (s : string)
| JsxArray (nodes : list ReactNode).
#[local] Set Elimination Schemes.

(** ** Arrays *)

Inductive JsValue :=
| undefined
| null
| object (el : ReactNode).

(** [!!v] *)
Definition truthy (v : JsValue) : bool :=
  match v with object _ => true | _ => false end.

(** [a.filter(el => !!el)] *)
Fixpoint filter_truthy (a : list JsValue) : list ReactNode :=
  match a with
  | object el :: a' => el :: filter_truthy a'
  | _ :: a' => filter_truthy a'
  | [] => []
  end.

(** An array object.  A property named by a number below [2^32 - 1] is an
    array index, and assigning to one at or beyond [length] moves
    [length] past it; any other number names an ordinary property. *)
Record JsArray := {
  props : gmap N JsValue;
  length : N
}.

Definition max_length : N := 2 ^ 32 - 1.

Definition empty_array : JsArray := {| props := ∅; length := 0 |}.

(** [a[k]] *)
Definition get (a : JsArray) (k : N) : JsValue :=
  default undefined (props a !! k).

(** [a[k] = v] *)
Definition set (a : JsArray) (k : N) (v : JsValue) : JsArray :=
  {| props := <[k := v]> (props a);
     length := if k <? max_length then N.max (length a) (k + 1) else length a |}.

Inductive JsError :=
| RangeError.                           (* invalid array length *)

(** [a.push(v)]: an array whose [length] is at its maximum cannot grow. *)
Definition push (a : JsArray) (v : JsValue) : JsError + JsArray :=
  if max_length <=? length a then inl RangeError
  else inr {| props := <[length a := v]> (props a); length := length a + 1 |}.

(** ** The renderer object *)

Record MarkedOptions := {
  gfm : bool;
  tables : bool;
  breaks : bool;
  pedantic : bool;
  sanitize : bool;
  smartLists : bool;
  silent : bool;
  smartypants : bool
}.

Record ReactRenderer := {
  options : MarkedOptions;
  onImageLoad : Callback;
  key : N;
  elements : JsArray
}.

Definition with_key (this : ReactRenderer) (k : N) : ReactRenderer :=
  {| options := options this; onImageLoad := onImageLoad this;
     key := k; elements := elements this |}.

Definition with_elements (this : ReactRenderer) (a : JsArray) : ReactRenderer :=
  {| options := options this; onImageLoad := onImageLoad this;
     key := key this; elements := a |}.

(** [new ReactRenderer(options, onImageLoad)] *)
Definition new_ReactRenderer (o : MarkedOptions) (cb : Callback) : ReactRenderer :=
  {| options := o; onImageLoad := cb; key := 0; elements := empty_array |}.

(** How a call ends: it returns, or throws; [OutOfFuel] is a loop the
    model stopped unrolling. *)
Inductive Completion (A : Type) :=
| Returns (a : A)
| Throws (e : JsError)
| OutOfFuel.
Arguments Returns {A} a.
Arguments Throws {A} e.
Arguments OutOfFuel {A}.

(** A method of the renderer: its result comes with the renderer it leaves
    behind. *)
Definition Method (A : Type) : Type :=
  ReactRenderer -> Completion (A * ReactRenderer).

Definition ret {A} (a : A) : Method A := fun this => Returns (a, this).

Definition bind {A B} (m : Method A) (k : A -> Method B) : Method B :=
  fun this =>
    match m this with
    | Returns (a, this') => k a this'
    | Throws e => Throws e
    | OutOfFuel => OutOfFuel
    end.

Notation "x <- m ;; k" := (bind m (fun x => k))
  (at level 100, m at next level, right associativity).

(** [this.key++] *)
Definition next_key : Method N :=
  fun this => Returns (key this, with_key this (key this + 1)).

(** [addElement(element)] *)
Definition addElement (element : ReactNode) : Method string :=
  fun this =>
    let elementId := length (elements this) in
    match push (elements this) (object element) with
    | inl e => Throws e
    | inr a => Returns ("{{" +:+ toString elementId +:+ "}}", with_elements this a)
    end.

(** *** [getElements] *)

(** The locals of [getElements]: the array being filled and the text still
    to be read. *)
Record Locals := {
  elements_ : list JsValue;
  text_ : string
}.

(** [<span key={k}>{s}</span>] *)
Definition span (k : N) (s : string) : ReactNode :=
  JsxElement "span" (Some k) [] [JsxText s].

(** [text = text.replace(re, (match) => ...)] with [re = /^{{\d+}}/g]:
    the pattern is anchored at the start of the input, so after the match
    at position 0 no later position matches and the callback runs at most
    once. *)
Definition replace_token (l : Locals) (this : ReactRenderer)
  : Locals * ReactRenderer :=
  match exec_token (text_ l) with
  | Some (m, rest) =>
      let index := Number (digit_run m) in
      ({| elements_ := elements_ l ++ [get (elements this) index];
          text_ := rest |},
       with_elements this (set (elements this) index null))
  | None => (l, this)
  end.

(** [while (next > 0) { ... }] *)
Fixpoint consume_leaks (fuel : nat) (next : Z) (l : Locals) (this : ReactRenderer)
  : option (Locals * ReactRenderer) :=
  if (0 <? next)%Z then
    match fuel with
    | O => None
    | S fuel' =>
        let subst := substr_to (Z.to_nat next) (text_ l) in
        let subst := unescape subst in
        let l' := {| elements_ := elements_ l ++ [object (span (key this) subst)];
                     text_ := substr_from (Z.to_nat next) (text_ l) |} in
        let this' := with_key this (key this + 1) in
        consume_leaks fuel' (indexOf (text_ l') "{{") l' this'
    end
  else Some (l, this).

Inductive Flow := Break | Continue.

(** One pass through the body of [while (true)]. *)
Definition iteration (l : Locals) (this : ReactRenderer)
  : option (Flow * (Locals * ReactRenderer)) :=
  let len := strlen (text_ l) in
  let '(l1, this1) := replace_token l this in
  if Nat.eqb (strlen (text_ l1)) 0 then Some (Break, (l1, this1))
  else
    match consume_leaks (strlen (text_ l1)) (indexOf (text_ l1) "{{") l1 this1 with
    | None => None
    | Some (l2, this2) =>
        if Nat.eqb len (strlen (text_ l2)) then
          let text := unescape (text_ l2) in
          Some (Break,
                ({| elements_ := elements_ l2 ++ [object (span (key this2) text)];
                    text_ := text |},
                 with_key this2 (key this2 + 1)))
        else Some (Continue, (l2, this2))
    end.

Fixpoint while_true (fuel : nat) (l : Locals) (this : ReactRenderer)
  : option (Locals * ReactRenderer) :=
  match fuel with
  | O => None
  | S fuel' =>
      match iteration l this with
      | None => None
      | Some (Break, r) => Some r
      | Some (Continue, (l', this')) => while_true fuel' l' this'
      end
  end.

(** [getElements(text)] *)
Definition getElements (text : string) : Method (list ReactNode) :=
  fun this =>
    match while_true (S (strlen text)) {| elements_ := []; text_ := text |} this with
    | Some (l, this') => Returns (filter_truthy (elements_ l), this')
    | None => OutOfFuel
    end.

(** *** The callbacks Marked invokes *)

(** A JSX element with a fresh key; the key is taken before the children
    are evaluated. *)
Definition leaf (tag : string) (attrs : list (string * AttrValue))
    (children : list ReactNode) : Method string :=
  k <- next_key ;;
  addElement (JsxElement tag (Some k) attrs children).

Definition container (tag : string) (attrs : list (string * AttrValue))
    (content : string) : Method string :=
  k <- next_key ;;
  children <- getElements content ;;
  addElement (JsxElement tag (Some k) attrs [JsxArray children]).

Definition code (code language : string) : Method string :=
  leaf "code" [] [JsxText (unescape code)].

Definition blockquote (quote : string) : Method string :=
  container "blockquote" [] quote.

Definition html (html : string) : Method string :=
  leaf "span" [] [JsxText html].

Definition heading (text : string) (level : N) (raw : string) : Method string :=
  let HeadingTag := "h" +:+ toString level in
  container HeadingTag [] text.

Definition hr : Method string :=
  leaf "hr" [] [].

Definition list_ (body : string) (ordered : bool) : Method string :=
  let ListTag := if ordered then "ol" else "ul" in
  container ListTag [] body.

Definition listitem (text : string) : Method string :=
  container "li" [] text.

Definition paragraph (text : string) : Method string :=
  container "p" [] text.

Definition table (header body : string) : Method string :=
  k <- next_key ;;
  h <- getElements header ;;
  b <- getElements body ;;
  addElement
    (JsxElement "table" (Some k) []
       [JsxElement "thead" None [] [JsxArray h];
        JsxElement "tbody" None [] [JsxArray b]]).

Definition tablerow (content : string) : Method string :=
  container "tr" [] content.

Record CellFlags := {
  header : bool;
  align : option string                (* [null] when the column has none *)
}.

Definition tablecell (content : string) (flags : CellFlags) : Method string :=
  let CellTag := if header flags then "th" else "td" in
  let align :=
    match align flags with
    | Some a => if String.eqb a "" then "initial" else a
    | None => "initial"
    end in
  container CellTag [("style", AStyle align)] content.

Definition strong (text : string) : Method string :=
  container "strong" [] text.

Definition em (text : string) : Method string :=
  container "em" [] text.

Definition codespan (code : string) : Method string :=
  leaf "code" [] [JsxText (unescape code)].

Definition br : Method string :=
  leaf "br" [] [].

Definition del (text : string) : Method string :=
  container "del" [] text.

(** [c.toLowerCase()] on a code unit of the 8-bit range. *)
Definition toLowerCase_char (c : ascii) : ascii :=
  let n := N_of_ascii c in
  if ((65 <=? n) && (n <=? 90))
     || ((192 <=? n) && (n <=? 222) && negb (n =? 215))
  then ascii_of_N (n + 32)
  else c.

Fixpoint toLowerCase (s : string) : string :=
  match s with
  | String c s' => String (toLowerCase_char c) (toLowerCase s')
  | "" => ""
  end.

(** [unescapeAndSanitizeLink(href)]; [None] is [null].  Nothing in the
    [try] block throws here, [unescape] being a function on strings. *)
Definition unescapeAndSanitizeLink (href : string) (this : ReactRenderer)
  : option string :=
  let href := unescape href in
  if sanitize (options this) then
    let prot := toLowerCase href in
    if negb (startsWith prot "http:" || startsWith prot "https:")
    then None
    else Some href
  else Some href.

(** [if (!href) return ''] rejects [null] and the empty string. *)
Definition link (href title text : string) : Method string :=
  fun this =>
    match unescapeAndSanitizeLink href this with
    | None => Returns ("", this)
    | Some href =>
        if String.eqb href "" then Returns ("", this)
        else
          container "a"
            [("href", AString href); ("title", AString title);
             ("target", AString "_blank")]
            text this
    end.

Definition image (href title text : string) : Method string :=
  fun this =>
    match unescapeAndSanitizeLink href this with
    | None => Returns ("", this)
    | Some href =>
        if String.eqb href "" then Returns ("", this)
        else
          leaf "img"
            [("onLoad", AArrow (onImageLoad this));
             ("src", AString href); ("title", AString title);
             ("alt", AString text)]
            [] this
    end.

Definition text (text : string) : Method string :=
  leaf "span" [] [JsxText (unescape text)].

(** ** Marked *)

(** The [MarkedRenderer] interface: one request per callback. *)
Inductive Call :=
| call_code (code language : string)
| call_blockquote (quote : string)
| call_html (html : string)
| call_heading (text : string) (level : N) (raw : string)
| call_hr
| call_list (body : string) (ordered : bool)
| call_listitem (text : string)
| call_paragraph (text : string)
| call_table (header body : string)
| call_tablerow (content : string)
| call_tablecell (content : string) (flags : CellFlags)
| call_strong (text : string)
| call_em (text : string)
| call_codespan (code : string)
| call_br
| call_del (text : string)
| call_link (href title text : string)
| call_image (href title text : string)
| call_text (text : string).

(** [ReactRenderer implements MarkedRenderer] *)
Definition perform (c : Call) : Method string :=
  match c with
  | call_code c l => code c l
  | call_blockquote q => blockquote q
  | call_html h => html h
  | call_heading t l r => heading t l r
  | call_hr => hr
  | call_list b o => list_ b o
  | call_listitem t => listitem t
  | call_paragraph t => paragraph t
  | call_table h b => table h b
  | call_tablerow c => tablerow c
  | call_tablecell c f => tablecell c f
  | call_strong t => strong t
  | call_em t => em t
  | call_codespan c => codespan c
  | call_br => br
  | call_del t => del t
  | call_link h t x => link h t x
  | call_image h t x => image h t x
  | call_text t => text t
  end.

(** A run of [Marked.parse] as its renderer sees it: Marked invokes a
    callback and goes on with the string it got back, until it has its
    output. *)
Inductive Parse :=
| Output (out : string)
| Invoke (c : Call) (k : string -> Parse).

(** [Marked.parse(src, options)], of the [marked] package. *)
Variable Marked_parse : string -> MarkedOptions -> Parse.

(** Running a parse against the renderer; what a callback throws leaves
    the parse. *)
Fixpoint run (p : Parse) : Method string :=
  match p with
  | Output out => ret out
  | Invoke c k =>
      fun this =>
        match perform c this with
        | Returns (s, this') => run (k s) this'
        | Throws e => Throws e
        | OutOfFuel => OutOfFuel
        end
  end.

(** ** The component *)

Definition CR : ascii := ascii_of_N 13.
Definition LF : ascii := ascii_of_N 10.

(** [s.replace(c, by)] with a string pattern of one code unit: only the
    first occurrence is replaced. *)
Fixpoint replace_char (c : ascii) (by_ : string) (s : string) : string :=
  match s with
  | String a s' =>
      if Ascii.eqb a c then by_ +:+ s' else String a (replace_char c by_ s')
  | "" => ""
  end.

(** [s.split(c)] *)
Fixpoint split (c : ascii) (s : string) : list string :=
  match s with
  | String a s' =>
      if Ascii.eqb a c then "" :: split c s'
      else match split c s' with
           | line :: lines => String a line :: lines
           | [] => [String a ""]
           end
  | "" => [""]
  end.

Definition renderPlainText (text : string) : ReactNode :=
  let lines := split LF (replace_char CR "" text) in
  let elements :=
    imap (fun i line =>
            JsxElement "span" (Some (N.of_nat i)) []
              [JsxText line; JsxElement "br" None [] []])
         lines in
  JsxElement "span" None [("className", AString "format-plain")]
    [JsxArray elements].

(** [\s] on the 8-bit range *)
Definition is_space (c : ascii) : bool :=
  let n := N_of_ascii c in
  ((9 <=? n) && (n <=? 13)) || (n =? 32) || (n =? 160).

Fixpoint skip_spaces (s : string) : nat * string :=
  match s with
  | String c s' =>
      if is_space c
      then let '(n, r) := skip_spaces s' in (S n, r)
      else (O, s)
  | "" => (O, "")
  end.

(** The length of the match of [/<br\s*\/?>/i] at the start of [s]. *)
Definition br_match (s : string) : option nat :=
  match s with
  | String lt (String b (String r s')) =>
      if Ascii.eqb lt "<"
         && (Ascii.eqb b "b" || Ascii.eqb b "B")
         && (Ascii.eqb r "r" || Ascii.eqb r "R")
      then
        let '(n, rest) := skip_spaces s' in
        match rest with
        | String c1 rest' =>
            if Ascii.eqb c1 ">" then Some (3 + n + 1)%nat
            else if Ascii.eqb c1 "/" then
              match rest' with
              | String c2 _ => if Ascii.eqb c2 ">" then Some (3 + n + 2)%nat else None
              | "" => None
              end
            else None
        | "" => None
        end
      else None
  | _ => None
  end.

Definition paragraph_break : string :=
  String CR (String LF (String CR (String LF ""))).

(** [s.replace(/<br\s*\/?>/ig, '\r\n\r\n')]: matches are replaced from
    left to right; [skip] counts the code units of the current match
    still to be passed over. *)
Fixpoint replace_br_from (skip : nat) (s : string) : string :=
  match s with
  | String c s' =>
      match skip with
      | S skip' => replace_br_from skip' s'
      | O =>
          match br_match (String c s') with
          | Some n => paragraph_break +:+ replace_br_from (n - 1) s'
          | None => String c (replace_br_from 0 s')
          end
      end
  | "" => ""
  end.

Definition replace_br (s : string) : string := replace_br_from 0 s.

(** The caller's [markdownOptions]: the keys it sets. *)
Record MarkedOverrides := {
  set_gfm : option bool;
  set_tables : option bool;
  set_breaks : option bool;
  set_pedantic : option bool;
  set_sanitize : option bool;
  set_smartLists : option bool;
  set_silent : option bool;
  set_smartypants : option bool
}.

Definition default_options : MarkedOptions :=
  {| gfm := true; tables := true; breaks := false; pedantic := false;
     sanitize := false; smartLists := true; silent := false;
     smartypants := false |}.

(** [{ ...defaults, ...markdownOptions }] *)
Definition spread (d : MarkedOptions) (o : option MarkedOverrides) : MarkedOptions :=
  match o with
  | None => d
  | Some o =>
      {| gfm := default (gfm d) (set_gfm o);
         tables := default (tables d) (set_tables o);
         breaks := default (breaks d) (set_breaks o);
         pedantic := default (pedantic d) (set_pedantic o);
         sanitize := default (sanitize d) (set_sanitize o);
         smartLists := default (smartLists d) (set_smartLists o);
         silent := default (silent d) (set_silent o);
         smartypants := default (smartypants d) (set_smartypants o) |}
  end.

Definition renderMarkdown (text : string) (markdownOptions : option MarkedOverrides)
    (onImageLoad : Callback) : Completion ReactNode :=
  let src := replace_br text in
  let options := spread default_options markdownOptions in
  let renderer := new_ReactRenderer options onImageLoad in
  match (out <- run (Marked_parse src options) ;; getElements out) renderer with
  | Returns (elements, _) =>
      Returns (JsxElement "span" None [("className", AString "format-markdown")]
                 [JsxArray elements])
  | Throws e => Throws e
  | OutOfFuel => OutOfFuel
  end.

Record IFormattedTextProps := {
  props_text : option string;           (* [None]: no text was passed *)
  props_format : string;
  props_onImageLoad : Callback;
  props_markdownOptions : option MarkedOverrides
}.

(** [FormattedText(props)]; [Returns None] is [null]. *)
Definition FormattedText (props : IFormattedTextProps)
  : Completion (option ReactNode) :=
  match props_text props with
  | None => Returns None
  | Some text =>
      if String.eqb text "" then Returns None
      else if String.eqb (props_format props) "plain"
      then Returns (Some (renderPlainText text))
      else
        match renderMarkdown text (props_markdownOptions props)
                (props_onImageLoad props) with
        | Returns node => Returns (Some node)
        | Throws e => Throws e
        | OutOfFuel => OutOfFuel
        end
  end.

(** *** Counting, for the statements about plain text *)

(** The number of elements with tag [tag] in a tree. *)
Fixpoint count_tag (tag : string) (n : ReactNode) : nat :=
  match n with
  | JsxElement t _ _ children =>
      ((if String.eqb t tag then 1 else 0)
       + list_sum (map (count_tag tag) children))%nat
  | JsxText _ => 0%nat
  | JsxArray nodes => list_sum (map (count_tag tag) nodes)
  end.

Fixpoint count_char (c : ascii) (s : string) : nat :=
  match s with
  | String a s' => ((if Ascii.eqb a c then 1 else 0) + count_char c s')%nat
  | "" => 0%nat
  end.

(** Following the words of the specification: every carriage return that
    is followed by a newline is dropped, which leaves the newline. *)
Fixpoint normalize_crlf (s : string) : string :=
  match s with
  | String a s' =>
      match s' with
      | String b _ =>
          if Ascii.eqb a CR && Ascii.eqb b LF then normalize_crlf s'
          else String a (normalize_crlf s')
      | "" => String a ""
      end
  | "" => ""
  end.

(** ** Facts about the string operations *)

Lemma strlen_substr_from n s : strlen (substr_from n s) = (strlen s - n)%nat.
Proof.
  revert s; induction n as [|n IH]; intros [|c s]; cbn; try reflexivity.
  apply IH.
Qed.

Lemma strlen_append s1 s2 : strlen (s1 +:+ s2) = (strlen s1 + strlen s2)%nat.
Proof. induction s1 as [|c s1 IH]; simpl; [reflexivity|]. now rewrite <- IH. Qed.

Lemma startsWith_length s p : startsWith s p = true -> (strlen p <= strlen s)%nat.
Proof.
  unfold startsWith; revert s; induction p as [|a p IH]; intros s; simpl; [lia|].
  destruct s as [|b s]; simpl; [discriminate|].
  destruct (Ascii.ascii_dec a b); [|discriminate].
  intros H; apply IH in H; lia.
Qed.

Lemma indexOf_from_lower i s p : (indexOf_from i s p = -1 \/ i <= indexOf_from i s p)%Z.
Proof.
  revert i; induction s as [|c s IH]; intros i; simpl.
  - destruct (startsWith "" p); lia.
  - destruct (startsWith (String c s) p); [lia|].
    destruct (IH (i + 1)%Z); lia.
Qed.

Lemma indexOf_from_shift i s p :
  indexOf_from i s p = (if indexOf_from 0 s p =? -1 then -1 else i + indexOf_from 0 s p)%Z.
Proof.
  revert i; induction s as [|c s IH]; intros i; simpl.
  - destruct (startsWith "" p); simpl; lia.
  - destruct (startsWith (String c s) p); simpl; [lia|].
    rewrite (IH (i + 1)%Z), (IH (0 + 1)%Z).
    destruct (indexOf_from_lower 0 s p) as [E|E].
    + rewrite E; reflexivity.
    + destruct (Z.eqb_spec (indexOf_from 0 s p) (-1)); [lia|].
      destruct (Z.eqb_spec (0 + 1 + indexOf_from 0 s p) (-1)); lia.
Qed.

(** A positive [indexOf] means that the text is not empty and does not
    start with the pattern. *)
Lemma indexOf_pos s p :
  (0 < indexOf s p)%Z -> (0 < strlen s)%nat /\ startsWith s p = false.
Proof.
  unfold indexOf; destruct s as [|c s]; simpl.
  - destruct (startsWith "" p); lia.
  - destruct (startsWith (String c s) p); [lia|]. intros _; split; [lia|reflexivity].
Qed.

Lemma indexOf_startsWith s p : startsWith s p = true -> indexOf s p = 0%Z.
Proof. unfold indexOf; destruct s; simpl; intros ->; reflexivity. Qed.

Lemma indexOf_cons c s p :
  indexOf (String c s) p
  = (if startsWith (String c s) p then 0
     else if indexOf s p =? -1 then -1 else 1 + indexOf s p)%Z.
Proof.
  unfold indexOf; simpl. destruct (startsWith (String c s) p); [reflexivity|].
  apply indexOf_from_shift.
Qed.

(** The text from the position [indexOf] gives starts with the pattern. *)
Lemma indexOf_found s p :
  (0 <= indexOf s p)%Z ->
  startsWith (substr_from (Z.to_nat (indexOf s p)) s) p = true.
Proof.
  induction s as [|c s IH].
  - unfold indexOf; simpl. destruct (startsWith "" p) eqn:E; [intros _; exact E|lia].
  - rewrite indexOf_cons. destruct (startsWith (String c s) p) eqn:E.
    + intros _; exact E.
    + destruct (Z.eqb_spec (indexOf s p) (-1)); [lia|]. intros _.
      destruct (indexOf_from_lower 0 s p) as [H|H]; [contradiction|].
      fold (indexOf s p) in H.
      replace (Z.to_nat (1 + indexOf s p)) with (S (Z.to_nat (indexOf s p))) by lia.
      cbn. apply IH; assumption.
Qed.

(** *** Tokens and numbers *)

Lemma string_of_uint_digits d : all_digits (NilEmpty.string_of_uint d) = true.
Proof. induction d; simpl; auto. Qed.

Lemma string_of_uint_nonempty d : d <> Decimal.Nil -> NilEmpty.string_of_uint d <> "".
Proof. destruct d; simpl; congruence. Qed.

Lemma toString_digits n : all_digits (toString n) = true.
Proof. apply string_of_uint_digits. Qed.

Lemma toString_nonempty n : toString n <> "".
Proof.
  apply string_of_uint_nonempty. destruct n; simpl; [discriminate|].
  apply Unsigned.to_uint_nonnil.
Qed.

Lemma decimal_value_toString n : decimal_value (toString n) = n.
Proof.
  unfold decimal_value, toString. rewrite NilEmpty.usu. apply DecimalN.Unsigned.of_to.
Qed.

Lemma to_double_exact v : v < 2 ^ 53 -> to_double v = v.
Proof. intros H. unfold to_double. apply N.ltb_lt in H. now rewrite H. Qed.

(** An array length is read back from its decimal form without loss. *)
Lemma Number_toString n : n < 2 ^ 53 -> Number (toString n) = n.
Proof. intros H. unfold Number. rewrite decimal_value_toString. now apply to_double_exact. Qed.

Lemma startsWith_append p s : startsWith (p +:+ s) p = true.
Proof.
  unfold startsWith; induction p as [|a p IH]; simpl.
  - destruct s; reflexivity.
  - destruct (Ascii.ascii_dec a a); [exact IH|contradiction].
Qed.

Lemma span_digits_token ds r :
  all_digits ds = true -> span_digits (ds +:+ "}}" +:+ r) = (ds, "}}" +:+ r).
Proof.
  induction ds as [|c ds IH]; simpl; [reflexivity|].
  intros H; apply andb_prop in H as [-> H]. now rewrite (IH H).
Qed.

Lemma exec_token_encode ds rest :
  all_digits ds = true -> ds <> "" ->
  exec_token ("{{" +:+ ds +:+ "}}" +:+ rest) = Some ("{{" +:+ ds +:+ "}}", rest).
Proof.
  intros Hd Hne. unfold exec_token.
  rewrite (startsWith_append "{{").
  change (substr_from 2 ("{{" +:+ ds +:+ "}}" +:+ rest)) with (ds +:+ "}}" +:+ rest).
  rewrite (span_digits_token ds rest Hd).
  rewrite (startsWith_append "}}").
  destruct ds; [contradiction|reflexivity].
Qed.

Lemma digit_run_token ds :
  all_digits ds = true -> ds <> "" -> digit_run ("{{" +:+ ds +:+ "}}") = ds.
Proof.
  intros Hd Hne. destruct ds as [|c ds]; [contradiction|].
  change (digit_run ("{{" +:+ String c ds +:+ "}}"))
    with (digit_run (String c ds +:+ "}}" +:+ "")).
  simpl in Hd. apply andb_prop in Hd as [Hc Hd].
  simpl. rewrite Hc. rewrite (span_digits_token ds "" Hd). reflexivity.
Qed.

Lemma exec_token_startsWith s m r :
  exec_token s = Some (m, r) -> startsWith s "{{" = true.
Proof. unfold exec_token; destruct (startsWith s "{{"); [reflexivity|discriminate]. Qed.

Lemma span_digits_length s :
  (strlen (fst (span_digits s)) + strlen (snd (span_digits s)) = strlen s)%nat.
Proof.
  induction s as [|c s IH]; simpl; [reflexivity|].
  destruct (is_digit c); simpl; [|reflexivity].
  destruct (span_digits s); simpl in *; lia.
Qed.

(** A matched token takes at least five code units off the text. *)
Lemma exec_token_shorter s m r :
  exec_token s = Some (m, r) -> (strlen r + 5 <= strlen s)%nat.
Proof.
  unfold exec_token. destruct (startsWith s "{{") eqn:E; [|discriminate].
  pose proof (span_digits_length (substr_from 2 s)) as L.
  destruct (span_digits (substr_from 2 s)) as [ds r0]; simpl in L.
  destruct (negb (String.eqb ds "") && startsWith r0 "}}") eqn:C; [|discriminate].
  intros [= <- <-]. apply andb_prop in C as [C1 C2].
  rewrite !strlen_substr_from in *.
  assert (1 <= strlen ds)%nat by (destruct ds; [discriminate|simpl; lia]).
  apply startsWith_length in C2, E; simpl in C2, E. lia.
Qed.

(** ** The decoding loop *)

(** *** What is already in the output array does not matter *)

Definition prepend (acc : list JsValue) (l : Locals) : Locals :=
  {| elements_ := acc ++ elements_ l; text_ := text_ l |}.

Definition prepend_result (acc : list JsValue) (r : Locals * ReactRenderer)
  : Locals * ReactRenderer :=
  (prepend acc (fst r), snd r).

Lemma replace_token_prepend acc l this :
  replace_token (prepend acc l) this = prepend_result acc (replace_token l this).
Proof.
  unfold replace_token, prepend_result, prepend; simpl.
  destruct (exec_token (text_ l)) as [[m rest]|]; simpl; [|reflexivity].
  now rewrite app_assoc.
Qed.

Lemma consume_leaks_prepend fuel next acc l this :
  consume_leaks fuel next (prepend acc l) this
  = option_map (prepend_result acc) (consume_leaks fuel next l this).
Proof.
  revert next l this; induction fuel as [|fuel IH]; intros next l this; simpl.
  - destruct (0 <? next)%Z; reflexivity.
  - destruct (0 <? next)%Z; [|reflexivity].
    rewrite <- IH. unfold prepend; simpl. now rewrite app_assoc.
Qed.

Lemma iteration_prepend acc l this :
  iteration (prepend acc l) this
  = option_map (fun '(fl, r) => (fl, prepend_result acc r)) (iteration l this).
Proof.
  unfold iteration. rewrite replace_token_prepend.
  destruct (replace_token l this) as [l1 this1]; simpl.
  destruct (strlen (text_ l1) =? 0)%nat; [reflexivity|].
  change (consume_leaks (strlen (text_ l1)) (indexOf (text_ l1) "{{")
            (prepend acc l1) this1)
    with (consume_leaks (strlen (text_ (prepend acc l1)))
            (indexOf (text_ (prepend acc l1)) "{{") (prepend acc l1) this1).
  simpl. rewrite consume_leaks_prepend.
  destruct (consume_leaks _ _ l1 this1) as [[l2 this2]|]; simpl; [|reflexivity].
  destruct (strlen (text_ l) =? strlen (text_ l2))%nat; simpl; [|reflexivity].
  unfold prepend_result, prepend; simpl. now rewrite app_assoc.
Qed.

Lemma while_true_prepend fuel acc l this :
  while_true fuel (prepend acc l) this
  = option_map (prepend_result acc) (while_true fuel l this).
Proof.
  revert l this; induction fuel as [|fuel IH]; intros l this; simpl; [reflexivity|].
  rewrite iteration_prepend.
  destruct (iteration l this) as [[[] [l' this']]|]; simpl; try reflexivity.
  apply IH.
Qed.

(** *** Every pass makes progress *)

Lemma consume_leaks_progress fuel l this :
  (strlen (text_ l) <= fuel)%nat ->
  exists l' this',
    consume_leaks fuel (indexOf (text_ l) "{{") l this = Some (l', this')
    /\ (strlen (text_ l') <= strlen (text_ l))%nat
    /\ ((0 < indexOf (text_ l) "{{")%Z -> (strlen (text_ l') < strlen (text_ l))%nat)
    /\ ((indexOf (text_ l) "{{" <= 0)%Z -> l' = l /\ this' = this).
Proof.
  revert l this; induction fuel as [|fuel IH]; intros l this Hfuel.
  - simpl. destruct (Z.ltb_spec 0 (indexOf (text_ l) "{{")) as [Hpos|Hnon].
    + apply indexOf_pos in Hpos as [Hpos _]; lia.
    + exists l, this; repeat split; auto; lia.
  - simpl. destruct (Z.ltb_spec 0 (indexOf (text_ l) "{{")) as [Hpos|Hnon].
    + pose proof (indexOf_pos _ _ Hpos) as [Hlen _].
      set (l1 := {| elements_ := _; text_ := _ |}).
      assert (Hl1 : (strlen (text_ l1) < strlen (text_ l))%nat).
      { subst l1; simpl. rewrite strlen_substr_from. lia. }
      destruct (IH l1 (with_key this (key this + 1))) as (l' & this' & E & Hle & _);
        [lia|].
      exists l', this'; repeat split; auto; lia.
    + exists l, this; repeat split; auto; lia.
Qed.

Lemma strlen_0 s : (strlen s =? 0)%nat = true -> s = "".
Proof. destruct s; [reflexivity | discriminate]. Qed.

Lemma iteration_progress l this :
  exists fl l' this',
    iteration l this = Some (fl, (l', this'))
    /\ match fl with
       | Continue =>
           (strlen (text_ l') < strlen (text_ l))%nat
           /\ (is_Some (exec_token (text_ l)) \/ (0 < indexOf (text_ l) "{{")%Z)
       | Break =>
           text_ (fst (replace_token l this)) = ""
           \/ (exec_token (text_ l) = None /\ (indexOf (text_ l) "{{" <= 0)%Z)
       end.
Proof.
  unfold iteration, replace_token.
  destruct (exec_token (text_ l)) as [[m rest]|] eqn:Etok; simpl.
  - apply exec_token_shorter in Etok.
    destruct (strlen rest =? 0)%nat eqn:Erest.
    + eexists Break, _, _; split; [reflexivity|]. left. now apply strlen_0.
    + set (l1 := {| elements_ := _; text_ := rest |}).
      destruct (consume_leaks_progress (strlen (text_ l1)) l1
                  (with_elements this (set (elements this) (Number (digit_run m)) null)))
        as (l2 & this2 & E & Hle & _); [lia|].
      simpl in E, Hle. rewrite E.
      destruct (Nat.eqb_spec (strlen (text_ l)) (strlen (text_ l2))); [lia|].
      eexists Continue, _, _; split; [reflexivity|]. split; [lia|]. left; eauto.
  - destruct (strlen (text_ l) =? 0)%nat eqn:Erest.
    + eexists Break, _, _; split; [reflexivity|]. left. now apply strlen_0.
    + destruct (consume_leaks_progress (strlen (text_ l)) l this)
        as (l2 & this2 & E & Hle & Hlt & Hid); [lia|].
      rewrite E.
      destruct (Nat.eqb_spec (strlen (text_ l)) (strlen (text_ l2))) as [Heq|Hne].
      * eexists Break, _, _; split; [reflexivity|]. right. split; [reflexivity|].
        destruct (Z.ltb_spec 0 (indexOf (text_ l) "{{")); [|lia].
        specialize (Hlt ltac:(assumption)); lia.
      * eexists Continue, _, _; split; [reflexivity|]. split; [lia|]. right.
        destruct (Z.ltb_spec 0 (indexOf (text_ l) "{{")); [assumption|].
        destruct Hid as [-> _]; [assumption|]. congruence.
Qed.

(** *** Enough fuel, and more fuel *)

Lemma while_true_terminates fuel l this :
  (strlen (text_ l) < fuel)%nat -> is_Some (while_true fuel l this).
Proof.
  revert l this; induction fuel as [|fuel IH]; intros l this Hfuel; [lia|].
  simpl. destruct (iteration_progress l this) as (fl & l' & this' & -> & H).
  destruct fl; [eauto|]. apply IH. lia.
Qed.

Lemma while_true_more_fuel fuel fuel' l this r :
  while_true fuel l this = Some r -> (fuel <= fuel')%nat ->
  while_true fuel' l this = Some r.
Proof.
  revert fuel' l this; induction fuel as [|fuel IH]; intros fuel' l this; [discriminate|].
  destruct fuel' as [|fuel']; [lia|]. simpl.
  destruct (iteration l this) as [[[] [l' this']]|]; auto.
  intros H Hle. apply IH; [assumption|lia].
Qed.

Lemma while_true_fuel fuel l this :
  (strlen (text_ l) < fuel)%nat ->
  while_true fuel l this = while_true (S (strlen (text_ l))) l this.
Proof.
  intros Hfuel.
  destruct (while_true_terminates (S (strlen (text_ l))) l this) as [r E]; [lia|].
  rewrite E. eapply while_true_more_fuel; [exact E|lia].
Qed.

(** *** The loop from an arbitrary pass onwards *)

(** The remaining passes of the loop, started with locals [l], up to the
    [return] of [getElements]. *)
Definition resume (l : Locals) : Method (list ReactNode) :=
  fun this =>
    match while_true (S (strlen (text_ l))) l this with
    | Some (l', this') => Returns (filter_truthy (elements_ l'), this')
    | None => OutOfFuel
    end.

Definition map_result {A B} (f : A -> B) (c : Completion (A * ReactRenderer))
  : Completion (B * ReactRenderer) :=
  match c with
  | Returns (a, this) => Returns (f a, this)
  | Throws e => Throws e
  | OutOfFuel => OutOfFuel
  end.

Lemma filter_truthy_app a b :
  filter_truthy (a ++ b) = (filter_truthy a ++ filter_truthy b)%list.
Proof.
  induction a as [|[| |el] a IH]; simpl; auto. now rewrite IH.
Qed.

Lemma getElements_resume text this :
  getElements text this = resume {| elements_ := []; text_ := text |} this.
Proof. reflexivity. Qed.

Lemma resume_prepend acc l this :
  resume (prepend acc l) this
  = map_result (fun nodes => (filter_truthy acc ++ nodes)%list) (resume l this).
Proof.
  unfold resume. change (text_ (prepend acc l)) with (text_ l).
  rewrite while_true_prepend.
  destruct (while_true _ l this) as [[l' this']|]; simpl; [|reflexivity].
  now rewrite filter_truthy_app.
Qed.

Lemma resume_Break l this l' this' :
  iteration l this = Some (Break, (l', this')) ->
  resume l this = Returns (filter_truthy (elements_ l'), this').
Proof. unfold resume; simpl. now intros ->. Qed.

Lemma resume_Continue l this l' this' :
  iteration l this = Some (Continue, (l', this')) ->
  resume l this = resume l' this'.
Proof.
  intros E. unfold resume; simpl. rewrite E.
  destruct (iteration_progress l this) as (fl & l0 & this0 & E' & H).
  rewrite E in E'; injection E' as <- <- <-. destruct H as [H _].
  rewrite (while_true_fuel (strlen (text_ l))); [reflexivity|assumption].
Qed.

(** Consuming the leaked text in front before entering the loop is what
    the loop would have done. *)
Lemma resume_after_leaks l this l2 this2 :
  consume_leaks (strlen (text_ l)) (indexOf (text_ l) "{{") l this = Some (l2, this2) ->
  resume l2 this2 = resume l this.
Proof.
  intros E.
  destruct (consume_leaks_progress (strlen (text_ l)) l this)
    as (l2' & this2' & E' & Hle & Hlt & Hid); [lia|].
  rewrite E in E'; injection E' as <- <-.
  destruct (Z.ltb_spec 0 (indexOf (text_ l) "{{")) as [Hpos|Hnon].
  - symmetry. apply resume_Continue.
    pose proof (indexOf_pos _ _ Hpos) as [Hlen Hstart].
    specialize (Hlt Hpos).
    unfold iteration, replace_token, exec_token. rewrite Hstart; simpl.
    destruct (Nat.eqb_spec (strlen (text_ l)) 0); [lia|]. rewrite E.
    destruct (Nat.eqb_spec (strlen (text_ l)) (strlen (text_ l2))); [lia|reflexivity].
  - destruct (Hid Hnon) as [-> ->]. reflexivity.
Qed.

(** A token in front is looked up, its slot is cleared, and the loop goes
    on with the rest. *)
Lemma resume_token l this m rest :
  exec_token (text_ l) = Some (m, rest) ->
  resume l this
  = resume {| elements_ := elements_ l ++ [get (elements this) (Number (digit_run m))];
              text_ := rest |}
           (with_elements this (set (elements this) (Number (digit_run m)) null)).
Proof.
  intros Etok.
  set (l1 := {| elements_ := _; text_ := rest |}).
  set (this1 := with_elements _ _).
  destruct (strlen rest =? 0)%nat eqn:Erest.
  - transitivity (Returns (filter_truthy (elements_ l1), this1)).
    + apply resume_Break. unfold iteration, replace_token. rewrite Etok; simpl.
      now rewrite Erest.
    + symmetry. apply resume_Break. apply strlen_0 in Erest. subst l1 rest.
      reflexivity.
  - destruct (consume_leaks_progress (strlen (text_ l1)) l1 this1)
      as (l2 & this2 & E & Hle & _); [lia|].
    rewrite <- (resume_after_leaks _ _ _ _ E).
    apply resume_Continue. unfold iteration, replace_token. rewrite Etok; simpl.
    rewrite Erest. simpl in E. fold l1 this1. rewrite E.
    apply exec_token_shorter in Etok. simpl in Hle.
    destruct (Nat.eqb_spec (strlen (text_ l)) (strlen (text_ l2))); [lia|reflexivity].
Qed.

Lemma getElements_token text this m rest :
  exec_token text = Some (m, rest) ->
  getElements text this
  = map_result
      (fun nodes =>
         (filter_truthy [get (elements this) (Number (digit_run m))] ++ nodes)%list)
      (getElements rest
         (with_elements this (set (elements this) (Number (digit_run m)) null))).
Proof.
  intros Etok. rewrite !getElements_resume.
  rewrite (resume_token {| elements_ := []; text_ := text |} this m rest Etok).
  apply (resume_prepend [_] {| elements_ := []; text_ := rest |}).
Qed.

Lemma getElements_empty this : getElements "" this = Returns ([], this).
Proof. reflexivity. Qed.

(** Text in front of the next [{{] becomes one [span], and the loop goes on
    at the [{{]. *)
Lemma getElements_leak text this :
  (0 < indexOf text "{{")%Z ->
  let n := Z.to_nat (indexOf text "{{") in
  getElements text this
  = map_result (fun nodes => span (key this) (unescape (substr_to n text)) :: nodes)
      (getElements (substr_from n text) (with_key this (key this + 1))).
Proof.
  intros Hpos n. rewrite !getElements_resume.
  pose proof (indexOf_pos _ _ Hpos) as [Hlen Hstart].
  set (l1 := {| elements_ := [object (span (key this) (unescape (substr_to n text)))];
                text_ := substr_from n text |}).
  transitivity (resume l1 (with_key this (key this + 1))).
  - apply resume_Continue.
    unfold iteration, replace_token, exec_token; simpl. rewrite Hstart; simpl.
    destruct (Nat.eqb_spec (strlen text) 0); [lia|].
    destruct (strlen text) as [|fuel] eqn:Efuel; [lia|].
    simpl. destruct (Z.ltb_spec 0 (indexOf text "{{")); [|lia].
    fold n. fold l1.
    assert (E0 : indexOf (text_ l1) "{{" = 0%Z).
    { apply indexOf_startsWith. subst l1 n; simpl. apply indexOf_found. lia. }
    simpl in E0. rewrite E0.
    replace (consume_leaks fuel 0 l1 (with_key this (key this + 1)))
      with (Some (l1, with_key this (key this + 1))) by (destruct fuel; reflexivity).
    change (strlen (text_ l1)) with (strlen (substr_from n text)).
    rewrite strlen_substr_from, Efuel.
    destruct (S fuel - n)%nat as [|k] eqn:Ek; [reflexivity|].
    destruct (Nat.eqb_spec fuel k); [lia|reflexivity].
  - exact (resume_prepend [object (span (key this) (unescape (substr_to n text)))]
             {| elements_ := []; text_ := substr_from n text |} _).
Qed.

(** Text that neither starts with a token nor has a [{{] further on becomes
    one [span], and the loop ends. *)
Lemma getElements_trailing text this :
  text <> "" -> exec_token text = None -> (indexOf text "{{" <= 0)%Z ->
  getElements text this
  = Returns ([span (key this) (unescape text)], with_key this (key this + 1)).
Proof.
  intros Hne Etok Hidx. rewrite getElements_resume.
  apply (resume_Break _ _
           {| elements_ := [object (span (key this) (unescape text))];
              text_ := unescape text |}).
  unfold iteration, replace_token; simpl. rewrite Etok; simpl.
  destruct (Nat.eqb_spec (strlen text) 0) as [E|E].
  { destruct text; [contradiction|discriminate]. }
  destruct (consume_leaks_progress (strlen text) {| elements_ := []; text_ := text |} this)
    as (l2 & this2 & E2 & _ & _ & Hid); [simpl; lia|].
  simpl in E2, Hid. rewrite E2. destruct (Hid Hidx) as [-> ->]; simpl.
  now rewrite Nat.eqb_refl.
Qed.

(** ** The registry *)

Lemma get_set_eq a k v : get (set a k v) k = v.
Proof. unfold get, set; simpl. now rewrite lookup_insert_eq. Qed.

Lemma get_set_ne a k k' v : k <> k' -> get (set a k v) k' = get a k'.
Proof. intros H. unfold get, set; simpl. now rewrite lookup_insert_ne. Qed.

Lemma push_inv a v a' :
  push a v = inr a' ->
  length a < max_length
  /\ a' = {| props := <[length a := v]> (props a); length := length a + 1 |}.
Proof.
  unfold push. destruct (N.leb_spec max_length (length a)); [discriminate|].
  intros [= <-]. split; [assumption|reflexivity].
Qed.

Lemma addElement_inv el this tok this1 :
  addElement el this = Returns (tok, this1) ->
  length (elements this) < max_length
  /\ tok = "{{" +:+ toString (length (elements this)) +:+ "}}"
  /\ get (elements this1) (length (elements this)) = object el
  /\ (forall k, k <> length (elements this) ->
      get (elements this1) k = get (elements this) k)
  /\ length (elements this1) = length (elements this) + 1
  /\ key this1 = key this.
Proof.
  unfold addElement. destruct (push (elements this) (object el)) as [e|a] eqn:E;
    [discriminate|].
  intros [= <- <-]. apply push_inv in E as [Hlen ->].
  repeat split; auto; unfold get; simpl.
  - now rewrite lookup_insert_eq.
  - intros k Hk. now rewrite lookup_insert_ne.
Qed.

Lemma max_length_small : max_length < 2 ^ 53.
Proof. reflexivity. Qed.

(** ** The claims about decoding *)

(** C3: [getElements] returns on every text.  Every pass through its loop
    ends, and either leaves the loop or goes on with a strictly shorter
    text, having removed a leading token or at least one code unit of
    leaked text; a pass leaves the loop when the text is empty after the
    token step, or when it took neither a token nor leaked text off it. *)
Theorem getElements_terminates text this :
  (forall l this0,
      exists fl l' this',
        iteration l this0 = Some (fl, (l', this'))
        /\ match fl with
           | Continue =>
               (strlen (text_ l') < strlen (text_ l))%nat
               /\ (is_Some (exec_token (text_ l)) \/ (0 < indexOf (text_ l) "{{")%Z)
           | Break =>
               text_ (fst (replace_token l this0)) = ""
               \/ (exec_token (text_ l) = None /\ (indexOf (text_ l) "{{" <= 0)%Z)
           end)
  /\ (forall fuel, (strlen text < fuel)%nat ->
       is_Some (while_true fuel {| elements_ := []; text_ := text |} this))
  /\ exists nodes this', getElements text this = Returns (nodes, this').
Proof.
  split; [exact iteration_progress|]. split.
  - intros fuel Hfuel. now apply while_true_terminates.
  - unfold getElements.
    destruct (while_true_terminates (S (strlen text))
                {| elements_ := []; text_ := text |} this) as [[l this'] ->];
      [simpl; lia|].
    eauto.
Qed.

Lemma set_set_eq a k v : set (set a k v) k v = set a k v.
Proof.
  unfold set; simpl. rewrite insert_insert_eq. f_equal.
  destruct (k <? max_length); lia.
Qed.

Definition encode (index : N) : string := "{{" +:+ toString index +:+ "}}".

Lemma exec_token_toString n : exec_token (encode n) = Some (encode n, "").
Proof.
  apply (exec_token_encode (toString n) "");
    [apply toString_digits|apply toString_nonempty].
Qed.

Lemma Number_digit_run_encode n : n < 2 ^ 53 -> Number (digit_run (encode n)) = n.
Proof.
  intros H. unfold encode.
  rewrite digit_run_token by (apply toString_digits || apply toString_nonempty).
  now apply Number_toString.
Qed.

(** The token of a slot that holds an element decodes to this element and
    clears the slot; decoded again it gives nothing. *)
Lemma decode_live_slot this n el :
  n < 2 ^ 53 -> get (elements this) n = object el ->
  let consumed := with_elements this (set (elements this) n null) in
  getElements (encode n) this = Returns ([el], consumed)
  /\ getElements (encode n) consumed = Returns ([], consumed).
Proof.
  intros Hn Hget consumed. split.
  - rewrite (getElements_token _ _ _ _ (exec_token_toString n)).
    rewrite Number_digit_run_encode, Hget, getElements_empty by assumption.
    reflexivity.
  - rewrite (getElements_token _ _ _ _ (exec_token_toString n)).
    rewrite Number_digit_run_encode, getElements_empty by assumption.
    subst consumed; simpl. rewrite get_set_eq, set_set_eq. reflexivity.
Qed.

(** C1: the token [addElement] returns for an element is the encoding of
    its index and decodes to that one element; the decode clears the slot,
    so decoding the same token again gives nothing.  The same holds for
    the token of any slot that holds an element.  A token in front of any
    text whose slot holds [null] or was never written adds no node to the
    output. *)
Theorem token_round_trip el this tok this1 :
  addElement el this = Returns (tok, this1) ->
  let consumed :=
    with_elements this1 (set (elements this1) (length (elements this)) null) in
  tok = encode (length (elements this))
  /\ getElements tok this1 = Returns ([el], consumed)
  /\ getElements tok consumed = Returns ([], consumed)
  /\ (forall this0 n el0,
        n < 2 ^ 53 -> get (elements this0) n = object el0 ->
        let consumed0 := with_elements this0 (set (elements this0) n null) in
        getElements (encode n) this0 = Returns ([el0], consumed0)
        /\ getElements (encode n) consumed0 = Returns ([], consumed0))
  /\ (forall ds rest this0,
        all_digits ds = true -> ds <> "" ->
        get (elements this0) (Number ds) = null
        \/ get (elements this0) (Number ds) = undefined ->
        getElements ("{{" +:+ ds +:+ "}}" +:+ rest) this0
        = getElements rest
            (with_elements this0 (set (elements this0) (Number ds) null))).
Proof.
  intros Hadd consumed.
  apply addElement_inv in Hadd as (Hlen & -> & Hget & _ & _ & _).
  assert (Hn : length (elements this) < 2 ^ 53)
    by (pose proof max_length_small; lia).
  destruct (decode_live_slot this1 _ el Hn Hget) as [H1 H2].
  split; [reflexivity|]. split; [exact H1|]. split; [exact H2|]. split.
  - intros this0 n el0. apply decode_live_slot.
  - intros ds rest this0 Hd Hne Hslot.
    rewrite (getElements_token _ _ _ _ (exec_token_encode ds rest Hd Hne)).
    rewrite (digit_run_token ds Hd Hne).
    destruct (getElements rest _) as [[nodes this']| |]; simpl; try reflexivity.
    destruct Hslot as [-> | ->]; reflexivity.
Qed.

(** C2: with elements in slots 0 and 1, the text [{{0}}raw & text{{1}}]
    decodes to the element of slot 0, a [span] holding the unescaped
    [raw & text], and the element of slot 1, in this order. *)
Theorem leak_absorption this n0 n1 :
  get (elements this) 0 = object n0 ->
  get (elements this) 1 = object n1 ->
  exists this',
    getElements "{{0}}raw & text{{1}}" this
    = Returns ([n0; span (key this) (unescape "raw & text"); n1], this')
    /\ key this' = key this + 1
    /\ get (elements this') 0 = null
    /\ get (elements this') 1 = null.
Proof.
  intros H0 H1.
  rewrite (getElements_token "{{0}}raw & text{{1}}" this "{{0}}" "raw & text{{1}}")
    by reflexivity.
  change (Number (digit_run "{{0}}")) with 0. rewrite H0.
  rewrite getElements_leak by reflexivity.
  change (Z.to_nat (indexOf "raw & text{{1}}" "{{")) with 10%nat.
  change (substr_to 10 "raw & text{{1}}") with "raw & text".
  change (substr_from 10 "raw & text{{1}}") with "{{1}}".
  rewrite (getElements_token "{{1}}" _ "{{1}}" "") by reflexivity.
  change (Number (digit_run "{{1}}")) with 1.
  rewrite getElements_empty. simpl.
  rewrite get_set_ne by discriminate. rewrite H1. simpl.
  eexists; split; [reflexivity|]. simpl. split; [reflexivity|].
  split; [|apply get_set_eq].
  rewrite get_set_ne by discriminate. apply get_set_eq.
Qed.

(** *** What a decode depends on *)

(** What a decode puts into its output array, apart from the keys it gives
    to its own spans: a value read from the registry, or the text of a
    span made for a leak. *)
Inductive Item :=
| registered (v : JsValue)
| leaked (s : string).

(** The output array for a list of items, the spans numbered from [k]. *)
Fixpoint realize (k : N) (items : list Item) : list JsValue :=
  match items with
  | registered v :: items' => v :: realize k items'
  | leaked s :: items' => object (span k s) :: realize (k + 1) items'
  | [] => []
  end.

Fixpoint leaks (items : list Item) : N :=
  match items with
  | registered _ :: items' => leaks items'
  | leaked _ :: items' => 1 + leaks items'
  | [] => 0
  end.

(** The nodes a call returned. *)
Definition returned {A} (c : Completion (A * ReactRenderer)) : option A :=
  match c with
  | Returns (a, _) => Some a
  | _ => None
  end.

Lemma decode_items n :
  forall text els, (strlen text <= n)%nat ->
  exists items els',
    forall this, elements this = els ->
      getElements text this
      = Returns (filter_truthy (realize (key this) items),
                 with_key (with_elements this els') (key this + leaks items)).
Proof.
  induction n as [|n IH]; intros text els Hn.
  - destruct text; [|simpl in Hn; lia].
    exists [], els. intros [o cb k e] <-; simpl.
    rewrite getElements_empty. unfold with_key, with_elements; simpl.
    now rewrite N.add_0_r.
  - destruct (String.eqb_spec text "") as [->|Hne].
    { exists [], els. intros [o cb k e] <-; simpl.
      rewrite getElements_empty. unfold with_key, with_elements; simpl.
      now rewrite N.add_0_r. }
    destruct (exec_token text) as [[m rest]|] eqn:Etok.
    + pose proof (exec_token_shorter _ _ _ Etok) as Hshort.
      destruct (IH rest (set els (Number (digit_run m)) null)) as (items & els' & H);
        [lia|].
      exists (registered (get els (Number (digit_run m))) :: items), els'.
      intros this <-. rewrite (getElements_token _ _ _ _ Etok).
      rewrite H by reflexivity. simpl.
      destruct (get (elements this) (Number (digit_run m))); reflexivity.
    + destruct (Z.ltb_spec 0 (indexOf text "{{")) as [Hpos|Hnon].
      * pose proof (indexOf_pos _ _ Hpos) as [Hlen _].
        set (k := Z.to_nat (indexOf text "{{")).
        destruct (IH (substr_from k text) els) as (items & els' & H).
        { rewrite strlen_substr_from. lia. }
        exists (leaked (unescape (substr_to k text)) :: items), els'.
        intros this <-. rewrite (getElements_leak _ _ Hpos). fold k.
        rewrite H by reflexivity. simpl.
        unfold with_key, with_elements; simpl. now rewrite N.add_assoc.
      * exists [leaked (unescape text)], els.
        intros [o cb k e] <-.
        rewrite (getElements_trailing _ _ Hne Etok Hnon). simpl.
        unfold with_key, with_elements; simpl. reflexivity.
Qed.

(** C8, as the code has it: what a decode returns is determined by the
    text, the registry and the key counter.  Two renderers with the same
    registry get the same registry values and the same leaked texts in the
    same order, with the spans of the leaks numbered from each renderer's
    own counter, and are left with the same registry; with the same
    counter as well they get the same nodes. *)
Theorem getElements_depends_on text els :
  (exists items els',
      forall this, elements this = els ->
        getElements text this
        = Returns (filter_truthy (realize (key this) items),
                   with_key (with_elements this els') (key this + leaks items)))
  /\ (forall this1 this2,
        elements this1 = els -> elements this2 = els -> key this1 = key this2 ->
        returned (getElements text this1) = returned (getElements text this2)).
Proof.
  destruct (decode_items (strlen text) text els) as (items & els' & H); [lia|].
  split; [eauto|].
  intros this1 this2 H1 H2 Hk. rewrite (H this1 H1), (H this2 H2); simpl.
  now rewrite Hk.
Qed.

(** ** The claims about the callbacks *)

(** C4: with [sanitize] on, a destination whose unescaped, lower-cased form
    starts with neither [http:] nor [https:] is rejected: [link] and
    [image] return the empty string and leave the renderer as it was, so
    no element, and no [onLoad] handler with it, is registered, whatever
    the title and the text are. *)
Theorem unsafe_scheme_rejected href title text this :
  sanitize (options this) = true ->
  startsWith (toLowerCase (unescape href)) "http:" = false ->
  startsWith (toLowerCase (unescape href)) "https:" = false ->
  unescapeAndSanitizeLink href this = None
  /\ link href title text this = Returns ("", this)
  /\ image href title text this = Returns ("", this).
Proof.
  intros Hs Hhttp Hhttps.
  assert (E : unescapeAndSanitizeLink href this = None).
  { unfold unescapeAndSanitizeLink. now rewrite Hs, Hhttp, Hhttps. }
  unfold link, image. now rewrite E.
Qed.

(** C9: a destination that unescapes to the empty string is rejected with
    [sanitize] on or off: [link] and [image] return the empty string and
    leave the renderer as it was. *)
Theorem empty_destination_rejected href title text this :
  unescape href = "" ->
  link href title text this = Returns ("", this)
  /\ image href title text this = Returns ("", this).
Proof.
  intros E. unfold link, image, unescapeAndSanitizeLink. rewrite E.
  destruct (sanitize (options this)); split; reflexivity.
Qed.

(** The callbacks that decode their content into children, and those that
    unescape it into a text child. *)
Definition decodes (cb : string -> Method string) : Prop :=
  exists tag attrs, forall content this,
    cb content this
    = match getElements content (with_key this (key this + 1)) with
      | Returns (children, this1) =>
          addElement (JsxElement tag (Some (key this)) attrs [JsxArray children]) this1
      | Throws e => Throws e
      | OutOfFuel => OutOfFuel
      end.

Definition unescapes (cb : string -> Method string) : Prop :=
  exists tag, forall content this,
    cb content this
    = addElement (JsxElement tag (Some (key this)) [] [JsxText (unescape content)])
        (with_key this (key this + 1)).

Lemma container_decodes tag attrs : decodes (container tag attrs).
Proof.
  exists tag, attrs. intros content this. unfold container, bind, next_key.
  destruct (getElements content _) as [[children this1]| |]; reflexivity.
Qed.

Lemma leaf_unescapes tag : unescapes (fun c => leaf tag [] [JsxText (unescape c)]).
Proof. exists tag. reflexivity. Qed.

(** C10: [html] registers one [span] whose only child is the content string
    as it stands, neither decoded nor unescaped, and touches no other slot
    of the registry, so that tokens inside the content stay unexpanded and
    their elements unconsumed.  Every other callback with a content string
    decodes it ([blockquote], [heading], [list], [listitem], [paragraph],
    [tablerow], [tablecell], [strong], [em], [del], and [link] for an
    accepted destination; [table] decodes both of its strings) or
    unescapes it ([code], [codespan], [text]). *)
Theorem html_keeps_content_verbatim content this :
  html content this
  = addElement (span (key this) content) (with_key this (key this + 1))
  /\ (forall tok this',
        html content this = Returns (tok, this') ->
        get (elements this') (length (elements this)) = object (span (key this) content)
        /\ (forall k, k <> length (elements this) ->
            get (elements this') k = get (elements this) k)
        /\ key this' = key this + 1)
  /\ Forall decodes
       [blockquote; listitem; paragraph; tablerow; strong; em; del]
  /\ (forall level raw, decodes (fun t => heading t level raw))
  /\ (forall ordered, decodes (fun b => list_ b ordered))
  /\ (forall flags, decodes (fun c => tablecell c flags))
  /\ (forall href title this0 dest,
        unescapeAndSanitizeLink href this0 = Some dest -> dest <> "" ->
        forall t, link href title t this0
        = container "a" [("href", AString dest); ("title", AString title);
                         ("target", AString "_blank")] t this0)
  /\ (forall header body,
        table header body
        = (k <- next_key ;;
           h <- getElements header ;;
           b <- getElements body ;;
           addElement
             (JsxElement "table" (Some k) []
                [JsxElement "thead" None [] [JsxArray h];
                 JsxElement "tbody" None [] [JsxArray b]])))
  /\ Forall unescapes [codespan; text]
  /\ (forall language, unescapes (fun c => code c language)).
Proof.
  split; [reflexivity|]. split.
  { intros tok this' H.
    change (html content this)
      with (addElement (span (key this) content) (with_key this (key this + 1))) in H.
    apply addElement_inv in H as (_ & _ & Hget & Hother & _ & Hkey); simpl in *.
    auto. }
  split; [repeat constructor; apply container_decodes|].
  split; [intros; apply container_decodes|].
  split; [intros; apply container_decodes|].
  split; [intros; apply container_decodes|].
  split.
  { intros href title this0 dest E Hne t. unfold link. rewrite E.
    destruct (String.eqb_spec dest ""); [contradiction|reflexivity]. }
  split; [reflexivity|].
  split; [repeat constructor; apply leaf_unescapes|].
  intros; apply leaf_unescapes.
Qed.

(** ** The claims about the component *)

Lemma length_split c s : List.length (split c s) = S (count_char c s).
Proof.
  induction s as [|a s IH]; simpl; [reflexivity|].
  destruct (Ascii.eqb a c); simpl; [now rewrite IH|].
  destruct (split c s); simpl in *; [discriminate|assumption].
Qed.

Lemma count_char_replace_char c d s :
  c <> d -> count_char c (replace_char d "" s) = count_char c s.
Proof.
  intros Hne. induction s as [|a s IH]; simpl; [reflexivity|].
  destruct (Ascii.eqb_spec a d) as [->|Had]; simpl.
  - destruct (Ascii.eqb_spec d c); [congruence|reflexivity].
  - now rewrite IH.
Qed.

Lemma count_char_normalize_crlf s :
  count_char LF (normalize_crlf s) = count_char LF s.
Proof.
  induction s as [|a s IH]; [reflexivity|].
  destruct s as [|b s']; [reflexivity|].
  change (normalize_crlf (String a (String b s')))
    with (if Ascii.eqb a CR && Ascii.eqb b LF then normalize_crlf (String b s')
          else String a (normalize_crlf (String b s'))).
  destruct (Ascii.eqb_spec a CR) as [->|Ha]; simpl (_ && _).
  - destruct (Ascii.eqb b LF); cbv iota; [exact IH|].
    change (count_char LF (String CR ?x)) with (count_char LF x).
    exact IH.
  - cbv iota.
    change (count_char LF (String a ?x))
      with ((if Ascii.eqb a LF then 1 else 0) + count_char LF x)%nat.
    now rewrite IH.
Qed.

Lemma count_tag_imap tag (f : nat -> string -> ReactNode) lines :
  (forall i line, count_tag tag (f i line) = 1%nat) ->
  list_sum (map (count_tag tag) (imap f lines)) = List.length lines.
Proof.
  revert f; induction lines as [|line lines IH]; intros f Hf; simpl; [reflexivity|].
  rewrite Hf, IH; [reflexivity|]. intros i l; apply Hf.
Qed.

Lemma count_br_renderPlainText text :
  count_tag "br" (renderPlainText text)
  = List.length (split LF (replace_char CR "" text)).
Proof.
  unfold renderPlainText.
  change (count_tag "br" (JsxElement "span" None ?a [JsxArray ?els]))
    with (0 + (list_sum (map (count_tag "br") els) + 0))%nat.
  rewrite count_tag_imap; [lia|]. reflexivity.
Qed.

(** The input used below: [a], [b] and [c] on three lines that end in a
    carriage return and a newline. *)
Definition three_lines : string :=
  "a" +:+ String CR (String LF "b") +:+ String CR (String LF "c").

(** C5, at an input with two line ends: only the first carriage return is
    taken out, so that the second line keeps its own, whereas the text with
    every pair turned into a newline has the lines [a], [b] and [c]. *)
Theorem renderPlainText_keeps_second_CR :
  renderPlainText three_lines
  = JsxElement "span" None [("className", AString "format-plain")]
      [JsxArray
         [JsxElement "span" (Some 0) [] [JsxText "a"; JsxElement "br" None [] []];
          JsxElement "span" (Some 1) []
            [JsxText (String "b" (String CR "")); JsxElement "br" None [] []];
          JsxElement "span" (Some 2) [] [JsxText "c"; JsxElement "br" None [] []]]]
  /\ split LF (normalize_crlf three_lines) = ["a"; "b"; "c"]
  /\ split LF (replace_char CR "" three_lines) <> split LF (normalize_crlf three_lines).
Proof. split; [reflexivity|]. split; [reflexivity|discriminate]. Qed.

(** C6: for a text that is not empty, the plain format gives as many [br]
    elements as the text has lines, counted on the text with its line ends
    normalized, on the text as the code splits it, or on the text itself:
    one more than it has newlines. *)
Theorem plain_text_line_breaks props text :
  props_text props = Some text -> text <> "" -> props_format props = "plain" ->
  exists node,
    FormattedText props = Returns (Some node)
    /\ count_tag "br" node = List.length (split LF (normalize_crlf text))
    /\ count_tag "br" node = List.length (split LF (replace_char CR "" text))
    /\ count_tag "br" node = S (count_char LF text).
Proof.
  intros Htext Hne Hformat. exists (renderPlainText text).
  unfold FormattedText. rewrite Htext, Hformat.
  destruct (String.eqb_spec text ""); [contradiction|].
  rewrite String.eqb_refl.
  rewrite count_br_renderPlainText, !length_split, count_char_normalize_crlf.
  rewrite count_char_replace_char by discriminate. auto.
Qed.

(** C7: without a text, or with the empty text, the component returns
    [null] whatever the format is; it does not throw. *)
Theorem empty_text_renders_null props :
  props_text props = None \/ props_text props = Some "" ->
  FormattedText props = Returns None.
Proof. unfold FormattedText. intros [-> | ->]; reflexivity. Qed.

(** ** More about decoding *)

(** *** Reasoning along the four ways a decode goes on *)

(** A decode is at its end on the empty text; takes a token off the front;
    takes the text in front of the next [{{] off; or ends with the whole
    text in one span. *)
Lemma getElements_cases
    (P : string -> ReactRenderer -> list ReactNode -> ReactRenderer -> Prop) :
  (forall this, P "" this [] this) ->
  (forall text m rest this nodes this',
      exec_token text = Some (m, rest) ->
      let index := Number (digit_run m) in
      let this1 := with_elements this (set (elements this) index null) in
      getElements rest this1 = Returns (nodes, this') ->
      P rest this1 nodes this' ->
      P text this (filter_truthy [get (elements this) index] ++ nodes)%list this') ->
  (forall text this nodes this',
      exec_token text = None -> (0 < indexOf text "{{")%Z ->
      let n := Z.to_nat (indexOf text "{{") in
      let this1 := with_key this (key this + 1) in
      getElements (substr_from n text) this1 = Returns (nodes, this') ->
      P (substr_from n text) this1 nodes this' ->
      P text this (span (key this) (unescape (substr_to n text)) :: nodes) this') ->
  (forall text this,
      text <> "" -> exec_token text = None -> (indexOf text "{{" <= 0)%Z ->
      P text this [span (key this) (unescape text)] (with_key this (key this + 1))) ->
  forall text this nodes this',
    getElements text this = Returns (nodes, this') -> P text this nodes this'.
Proof.
  intros Hempty Htoken Hleak Htrail text.
  remember (strlen text) as n eqn:Hn.
  assert (Hle : (strlen text <= n)%nat) by lia. clear Hn.
  revert text Hle. induction n as [|n IH]; intros text Hle this nodes this'.
  { destruct text; [|simpl in Hle; lia].
    rewrite getElements_empty. intros [= <- <-]. apply Hempty. }
  destruct (String.eqb_spec text "") as [->|Hne].
  { rewrite getElements_empty. intros [= <- <-]. apply Hempty. }
  destruct (exec_token text) as [[m rest]|] eqn:Etok.
  - pose proof (exec_token_shorter _ _ _ Etok) as Hshort.
    rewrite (getElements_token _ _ _ _ Etok).
    destruct (getElements rest _) as [[nodes1 this1]| |] eqn:E; try discriminate.
    intros [= <- <-]. eapply Htoken; [exact Etok|exact E|].
    apply IH; [lia|exact E].
  - destruct (Z.ltb_spec 0 (indexOf text "{{")) as [Hpos|Hnon].
    + pose proof (indexOf_pos _ _ Hpos) as [Hlen _].
      rewrite (getElements_leak _ _ Hpos).
      destruct (getElements (substr_from _ text) _) as [[nodes1 this1]| |] eqn:E;
        try discriminate.
      intros [= <- <-]. apply Hleak; [exact Etok|exact Hpos|exact E|].
      apply IH; [rewrite strlen_substr_from; lia|exact E].
    + rewrite (getElements_trailing _ _ Hne Etok Hnon).
      intros [= <- <-]. now apply Htrail.
Qed.

(** *** What a decode leaves of the renderer *)

(** [this'] is [this] after slots were set to [null] and the key counter
    moved on. *)
Record cleared_from (this this' : ReactRenderer) : Prop := {
  cleared_options : options this' = options this;
  cleared_onImageLoad : onImageLoad this' = onImageLoad this;
  cleared_key : key this <= key this';
  cleared_length : length (elements this) <= length (elements this');
  cleared_slots :
    forall k, get (elements this') k = get (elements this) k
              \/ get (elements this') k = null
}.

Lemma cleared_from_refl this : cleared_from this this.
Proof. split; auto; lia. Qed.

Lemma cleared_from_trans this1 this2 this3 :
  cleared_from this1 this2 -> cleared_from this2 this3 -> cleared_from this1 this3.
Proof.
  intros [Ho1 Hc1 Hk1 Hl1 Hs1] [Ho2 Hc2 Hk2 Hl2 Hs2]. split; try congruence; try lia.
  intros k. destruct (Hs2 k) as [->| ->]; auto.
Qed.

Lemma cleared_from_with_key this : cleared_from this (with_key this (key this + 1)).
Proof. split; simpl; auto; lia. Qed.

Lemma cleared_from_set this k :
  cleared_from this (with_elements this (set (elements this) k null)).
Proof.
  split; simpl; auto; try lia.
  - destruct (k <? max_length); lia.
  - intros k'. destruct (N.eq_dec k k') as [<-|Hne].
    + right. apply get_set_eq.
    + left. now apply get_set_ne.
Qed.

Lemma getElements_cleared_from text this nodes this' :
  getElements text this = Returns (nodes, this') -> cleared_from this this'.
Proof.
  apply (getElements_cases (fun _ this _ this' => cleared_from this this')); clear.
  - apply cleared_from_refl.
  - intros text m rest this nodes this' _ index this1 _ H.
    eapply cleared_from_trans; [apply cleared_from_set|exact H].
  - intros text this nodes this' _ _ n this1 _ H.
    eapply cleared_from_trans; [apply cleared_from_with_key|exact H].
  - intros. apply cleared_from_with_key.
Qed.

(** *** Keys *)

Definition top_key (n : ReactNode) : option N :=
  match n with
  | JsxElement _ k _ _ => k
  | _ => None
  end.

(** The nodes of an array all have a key, and no two have the same. *)
Definition keyed_apart (nodes : list ReactNode) : Prop :=
  NoDup (map top_key nodes) /\ Forall (fun n => is_Some (top_key n)) nodes.

(** Every array in a tree is [keyed_apart]. *)
Fixpoint well_keyed (n : ReactNode) : Prop :=
  match n with
  | JsxElement _ _ _ children =>
      fold_right (fun c rest => well_keyed c /\ rest) True children
  | JsxText _ => True
  | JsxArray nodes =>
      keyed_apart nodes
      /\ fold_right (fun c rest => well_keyed c /\ rest) True nodes
  end.

Lemma fold_right_and_Forall {A} (P : A -> Prop) l :
  fold_right (fun c rest => P c /\ rest) True l <-> Forall P l.
Proof.
  induction l as [|x l IH]; simpl.
  - split; auto.
  - rewrite Forall_cons, IH. reflexivity.
Qed.

Lemma well_keyed_JsxArray nodes :
  well_keyed (JsxArray nodes) <-> keyed_apart nodes /\ Forall well_keyed nodes.
Proof. simpl. now rewrite fold_right_and_Forall. Qed.

Lemma well_keyed_JsxElement tag k attrs children :
  well_keyed (JsxElement tag k attrs children) <-> Forall well_keyed children.
Proof. simpl. now rewrite fold_right_and_Forall. Qed.

(** The registry of a renderer whose elements all came from the callbacks:
    the key of an element is below the counter, no two elements have the
    same key, and the elements are [well_keyed]. *)
Record keys_sound (this : ReactRenderer) : Prop := {
  keys_below :
    forall i el, get (elements this) i = object el ->
                 exists k, top_key el = Some k /\ k < key this;
  keys_apart :
    forall i j el el', i <> j ->
      get (elements this) i = object el -> get (elements this) j = object el' ->
      top_key el <> top_key el';
  keys_inside :
    forall i el, get (elements this) i = object el -> well_keyed el
}.

Lemma keys_sound_new o cb : keys_sound (new_ReactRenderer o cb).
Proof.
  split; [intros i el H | intros i j el el' _ H _ | intros i el H].
  all: unfold get in H; simpl in H; rewrite lookup_empty in H; discriminate.
Qed.

Lemma keys_sound_cleared this this' :
  cleared_from this this' -> keys_sound this -> keys_sound this'.
Proof.
  intros [_ _ Hk _ Hs] [Hb Ha Hi]. split.
  - intros i el H. destruct (Hs i) as [E|E]; rewrite E in H; [|discriminate].
    destruct (Hb i el H) as (k & ? & ?). exists k. split; [assumption|lia].
  - intros i j el el' Hne H H'.
    destruct (Hs i) as [E|E]; rewrite E in H; [|discriminate].
    destruct (Hs j) as [E'|E']; rewrite E' in H'; [|discriminate]. eauto.
  - intros i el H. destruct (Hs i) as [E|E]; rewrite E in H; [|discriminate]. eauto.
Qed.

(** Where the nodes of a decode come from. *)
Definition from_decode (this this' : ReactRenderer) (x : ReactNode) : Prop :=
  (exists i, get (elements this) i = object x)
  \/ (exists k s, x = span k s /\ key this <= k < key this').

Lemma getElements_keys text this nodes this' :
  getElements text this = Returns (nodes, this') ->
  keys_sound this ->
  NoDup (map top_key nodes) /\ Forall (from_decode this this') nodes.
Proof.
  revert text this nodes this'.
  apply (getElements_cases (fun _ this nodes this' =>
           keys_sound this ->
           NoDup (map top_key nodes) /\ Forall (from_decode this this') nodes)).
  - intros this _. split; constructor.
  - intros text m rest this nodes this' _ index this1 E IH Hs.
    pose proof (getElements_cleared_from _ _ _ _ E) as Hc.
    destruct IH as [Hnd Hfrom].
    { eapply keys_sound_cleared; [apply cleared_from_set|exact Hs]. }
    assert (Hfrom' : Forall (from_decode this this') nodes).
    { eapply Forall_impl; [exact Hfrom|].
      intros x [(i & Hi)|(k & s & -> & Hk)]; [left|right; eauto].
      subst this1; simpl in Hi.
      destruct (cleared_slots _ _ (cleared_from_set this index) i) as [Ei|Ei];
        simpl in Ei; rewrite Ei in Hi; [eauto|discriminate]. }
    destruct (get (elements this) index) as [| |el] eqn:Eget; simpl; auto.
    split; [|constructor; [left; eauto|exact Hfrom']].
    apply NoDup_cons. split; [|exact Hnd].
    intros Hin. apply list_elem_of_fmap in Hin as (x & Hkey & Hx).
    rewrite Forall_forall in Hfrom. destruct (Hfrom x Hx) as [(i & Hi)|(k & s & -> & Hk)].
    + subst this1; simpl in Hi.
      destruct (N.eq_dec index i) as [<-|Hne].
      * rewrite get_set_eq in Hi. discriminate.
      * rewrite get_set_ne in Hi by assumption.
        exact (keys_apart _ Hs _ _ _ _ Hne Eget Hi Hkey).
    + destruct (keys_below _ Hs _ _ Eget) as (k' & Hk' & Hlt).
      rewrite Hk' in Hkey. injection Hkey as Hkey. subst this1; simpl in Hk. lia.
  - intros text this nodes this' _ _ n this1 E IH Hs.
    pose proof (getElements_cleared_from _ _ _ _ E) as Hc.
    destruct IH as [Hnd Hfrom].
    { eapply keys_sound_cleared; [apply cleared_from_with_key|exact Hs]. }
    pose proof (cleared_key _ _ Hc) as Hkey'. subst this1; simpl in *.
    split.
    + apply NoDup_cons. split; [|exact Hnd].
      intros Hin. apply list_elem_of_fmap in Hin as (x & Hkey & Hx).
      rewrite Forall_forall in Hfrom.
      destruct (Hfrom x Hx) as [(i & Hi)|(k & s & -> & Hk)].
      * destruct (keys_below _ Hs _ _ Hi) as (k' & Hk' & Hlt).
        rewrite Hk' in Hkey. injection Hkey as Hkey. simpl in Hi. lia.
      * simpl in Hkey, Hk. injection Hkey as Hkey. lia.
    + constructor.
      * right. eexists _, _. split; [reflexivity|lia].
      * eapply Forall_impl; [exact Hfrom|].
        intros x [(i & Hi)|(k & s & -> & Hk)]; [left; eauto|right].
        simpl in Hk. eexists _, _. split; [reflexivity|lia].
  - intros text this _ _ _ _. split.
    + apply NoDup_singleton.
    + constructor; [|constructor].
      right. eexists _, _. split; [reflexivity|simpl; lia].
Qed.

Lemma getElements_keyed_apart text this nodes this' :
  getElements text this = Returns (nodes, this') ->
  keys_sound this ->
  keyed_apart nodes /\ Forall well_keyed nodes.
Proof.
  intros E Hs. destruct (getElements_keys _ _ _ _ E Hs) as [Hnd Hfrom].
  split; [split; [exact Hnd|]|]; eapply Forall_impl; try exact Hfrom.
  - intros x [(i & Hi)|(k & s & -> & _)]; [|simpl; eauto].
    destruct (keys_below _ Hs _ _ Hi) as (k & -> & _). eauto.
  - intros x [(i & Hi)|(k & s & -> & _)]; [exact (keys_inside _ Hs _ _ Hi)|].
    simpl. auto.
Qed.

(** *** What the callbacks leave of the renderer *)

(** [this'] is [this] some calls later. *)
Record later (this this' : ReactRenderer) : Prop := {
  later_options : options this' = options this;
  later_onImageLoad : onImageLoad this' = onImageLoad this;
  later_key : key this <= key this';
  later_length : length (elements this) <= length (elements this')
}.

Lemma later_refl this : later this this.
Proof. split; auto; lia. Qed.

Lemma later_trans this1 this2 this3 :
  later this1 this2 -> later this2 this3 -> later this1 this3.
Proof. intros [] []. split; try congruence; lia. Qed.

Lemma cleared_from_later this this' : cleared_from this this' -> later this this'.
Proof. intros []. now split. Qed.

Lemma addElement_later el this tok this' :
  addElement el this = Returns (tok, this') -> later this this'.
Proof.
  unfold addElement. destruct (push (elements this) (object el)) as [e|a] eqn:E;
    [discriminate|].
  intros [= <- <-]. apply push_inv in E as [_ ->]. split; simpl; auto; lia.
Qed.

(** Registering an element under the key taken at the start of a callback
    keeps the keys of the registry sound. *)
Lemma addElement_keys_sound this0 this tag attrs children tok this' :
  keys_sound this0 ->
  cleared_from (with_key this0 (key this0 + 1)) this ->
  Forall well_keyed children ->
  addElement (JsxElement tag (Some (key this0)) attrs children) this
  = Returns (tok, this') ->
  keys_sound this' /\ later this0 this'.
Proof.
  intros [Hb Ha Hi] Hc Hch Hadd.
  pose proof (addElement_later _ _ _ _ Hadd) as Hl.
  apply addElement_inv in Hadd as (_ & _ & Hnew & Hold & _ & Hkey).
  destruct Hc as [Ho Hcb Hk Hlen Hs]; simpl in *.
  assert (Hslot : forall i el,
             i <> length (elements this) ->
             get (elements this') i = object el -> get (elements this0) i = object el).
  { intros i el Hne H. rewrite Hold in H by assumption.
    destruct (Hs i) as [E|E]; rewrite E in H; [assumption|discriminate]. }
  split.
  - split.
    + intros i el H. destruct (N.eq_dec i (length (elements this))) as [->|Hne].
      * rewrite Hnew in H. injection H as <-. exists (key this0). simpl.
        split; [reflexivity|lia].
      * destruct (Hb i el (Hslot i el Hne H)) as (k & ? & ?).
        exists k. split; [assumption|lia].
    + intros i j el el' Hne H H'.
      destruct (N.eq_dec i (length (elements this))) as [->|Hi'];
        destruct (N.eq_dec j (length (elements this))) as [->|Hj']; try congruence.
      * rewrite Hnew in H. injection H as <-. simpl.
        destruct (Hb j el' (Hslot j el' Hj' H')) as (k & -> & ?).
        intros [= E]. lia.
      * rewrite Hnew in H'. injection H' as <-. simpl.
        destruct (Hb i el (Hslot i el Hi' H)) as (k & -> & ?).
        intros [= E]. lia.
      * eauto.
    + intros i el H. destruct (N.eq_dec i (length (elements this))) as [->|Hne].
      * rewrite Hnew in H. injection H as <-. now apply well_keyed_JsxElement.
      * eauto.
  - eapply later_trans; [|exact Hl]. split; simpl; try congruence; lia.
Qed.

Lemma leaf_keys_sound tag attrs children this tok this' :
  keys_sound this -> Forall well_keyed children ->
  leaf tag attrs children this = Returns (tok, this') ->
  keys_sound this' /\ later this this'.
Proof.
  intros Hs Hch H.
  exact (addElement_keys_sound this (with_key this (key this + 1)) tag attrs
           children tok this' Hs (cleared_from_refl _) Hch H).
Qed.

Lemma container_keys_sound tag attrs content this tok this' :
  keys_sound this ->
  container tag attrs content this = Returns (tok, this') ->
  keys_sound this' /\ later this this'.
Proof.
  intros Hs. unfold container, bind, next_key.
  destruct (getElements content _) as [[children this1]| |] eqn:E; try discriminate.
  intros H.
  destruct (getElements_keyed_apart _ _ _ _ E) as [Hka Hwk].
  { eapply keys_sound_cleared; [apply cleared_from_with_key|exact Hs]. }
  eapply addElement_keys_sound; [exact Hs| |
                                 |exact H].
  - exact (getElements_cleared_from _ _ _ _ E).
  - constructor; [|constructor]. now apply well_keyed_JsxArray.
Qed.

Lemma table_keys_sound header body this tok this' :
  keys_sound this ->
  table header body this = Returns (tok, this') ->
  keys_sound this' /\ later this this'.
Proof.
  intros Hs. unfold table, bind, next_key.
  destruct (getElements header _) as [[h this1]| |] eqn:Eh; try discriminate.
  destruct (getElements body this1) as [[b this2]| |] eqn:Eb; try discriminate.
  intros H.
  pose proof (getElements_cleared_from _ _ _ _ Eh) as Hc1.
  pose proof (getElements_cleared_from _ _ _ _ Eb) as Hc2.
  assert (Hs0 : keys_sound (with_key this (key this + 1))).
  { eapply keys_sound_cleared; [apply cleared_from_with_key|exact Hs]. }
  destruct (getElements_keyed_apart _ _ _ _ Eh Hs0) as [Hkh Hwh].
  destruct (getElements_keyed_apart _ _ _ _ Eb) as [Hkb Hwb].
  { eapply keys_sound_cleared; [exact Hc1|exact Hs0]. }
  eapply addElement_keys_sound; [exact Hs| | |exact H].
  - eapply cleared_from_trans; eassumption.
  - constructor; [|constructor; [|constructor]].
    all: apply well_keyed_JsxElement; constructor; [|constructor].
    all: now apply well_keyed_JsxArray.
Qed.

Lemma perform_keys_sound c this tok this' :
  keys_sound this -> perform c this = Returns (tok, this') ->
  keys_sound this' /\ later this this'.
Proof.
  intros Hs. destruct c; simpl.
  all: unfold code, blockquote, html, heading, hr, list_, listitem, paragraph,
         tablerow, tablecell, strong, em, codespan, br, del, text.
  all: lazymatch goal with
       | |- container _ _ _ _ = _ -> _ => apply container_keys_sound; assumption
       | |- leaf _ _ _ _ = _ -> _ =>
           apply leaf_keys_sound; [assumption|repeat constructor]
       | |- table _ _ _ = _ -> _ => apply table_keys_sound; assumption
       | _ => idtac
       end.
  - unfold link. destruct (unescapeAndSanitizeLink href this) as [dest|].
    + destruct (String.eqb dest "").
      * intros [= <- <-]. split; [assumption|apply later_refl].
      * apply container_keys_sound; assumption.
    + intros [= <- <-]. split; [assumption|apply later_refl].
  - unfold image. destruct (unescapeAndSanitizeLink href this) as [dest|].
    + destruct (String.eqb dest "").
      * intros [= <- <-]. split; [assumption|apply later_refl].
      * apply leaf_keys_sound; [assumption|constructor].
    + intros [= <- <-]. split; [assumption|apply later_refl].
Qed.

Lemma run_keys_sound p : forall this out this',
  keys_sound this -> run p this = Returns (out, this') ->
  keys_sound this' /\ later this this'.
Proof.
  induction p as [out0|c k IH]; intros this out this' Hs; simpl.
  - intros [= <- <-]. split; [assumption|apply later_refl].
  - destruct (perform c this) as [[s this1]| |] eqn:E; try discriminate.
    intros H. destruct (perform_keys_sound _ _ _ _ Hs E) as [Hs1 Hl1].
    destruct (IH s _ _ _ Hs1 H) as [Hs2 Hl2].
    split; [assumption|]. eapply later_trans; eassumption.
Qed.

(** *** Invariants of the renderer *)

Section Invariant.

(** A property of the renderer that moving the key counter on, clearing a
    slot and pushing an element keep. *)
Variable Inv : ReactRenderer -> Prop.
Hypothesis Inv_key : forall this, Inv this -> Inv (with_key this (key this + 1)).
Hypothesis Inv_set :
  forall this k, Inv this -> Inv (with_elements this (set (elements this) k null)).
Hypothesis Inv_push :
  forall this el a,
    Inv this -> push (elements this) (object el) = inr a -> Inv (with_elements this a).

Lemma getElements_Inv text this nodes this' :
  getElements text this = Returns (nodes, this') -> Inv this -> Inv this'.
Proof using Inv_key Inv_set.
  revert text this nodes this'.
  apply (getElements_cases (fun _ this _ this' => Inv this -> Inv this')).
  - auto.
  - intros text m rest this nodes this' _ index this1 _ IH Hi.
    apply IH, Inv_set, Hi.
  - intros text this nodes this' _ _ n this1 _ IH Hi. apply IH, Inv_key, Hi.
  - intros text this _ _ _ Hi. apply Inv_key, Hi.
Qed.

Lemma addElement_Inv el this tok this' :
  addElement el this = Returns (tok, this') -> Inv this -> Inv this'.
Proof using Inv_push.
  unfold addElement. destruct (push (elements this) (object el)) as [e|a] eqn:E;
    [discriminate|].
  intros [= <- <-] H. eapply Inv_push; eassumption.
Qed.

Lemma leaf_Inv tag attrs children this tok this' :
  leaf tag attrs children this = Returns (tok, this') -> Inv this -> Inv this'.
Proof using Inv_key Inv_push.
  intros H Hi. eapply addElement_Inv; [exact H|]. now apply Inv_key.
Qed.

Lemma container_Inv tag attrs content this tok this' :
  container tag attrs content this = Returns (tok, this') -> Inv this -> Inv this'.
Proof using Inv_key Inv_set Inv_push.
  unfold container, bind, next_key.
  destruct (getElements content _) as [[children this1]| |] eqn:E; try discriminate.
  intros H Hi. eapply addElement_Inv; [exact H|].
  eapply getElements_Inv; [exact E|]. now apply Inv_key.
Qed.

Lemma perform_Inv c this tok this' :
  perform c this = Returns (tok, this') -> Inv this -> Inv this'.
Proof using Inv_key Inv_set Inv_push.
  destruct c; simpl.
  all: unfold code, blockquote, html, heading, hr, list_, listitem, paragraph,
         tablerow, tablecell, strong, em, codespan, br, del, text.
  all: lazymatch goal with
       | |- container _ _ _ _ = _ -> _ => apply container_Inv
       | |- leaf _ _ _ _ = _ -> _ => apply leaf_Inv
       | _ => idtac
       end.
  - unfold table, bind, next_key.
    destruct (getElements _ (with_key _ _)) as [[h this1]| |] eqn:Eh;
      try discriminate.
    destruct (getElements _ this1) as [[b this2]| |] eqn:Eb; try discriminate.
    intros H Hi. eapply addElement_Inv; [exact H|].
    eapply getElements_Inv; [exact Eb|].
    eapply getElements_Inv; [exact Eh|]. now apply Inv_key.
  - unfold link. destruct (unescapeAndSanitizeLink href this) as [dest|].
    + destruct (String.eqb dest ""); [now intros [= <- <-]|apply container_Inv].
    + now intros [= <- <-].
  - unfold image. destruct (unescapeAndSanitizeLink href this) as [dest|].
    + destruct (String.eqb dest ""); [now intros [= <- <-]|apply leaf_Inv].
    + now intros [= <- <-].
Qed.

Lemma run_Inv p : forall this out this',
  run p this = Returns (out, this') -> Inv this -> Inv this'.
Proof using Inv_key Inv_set Inv_push.
  induction p as [out0|c k IH]; intros this out this'; simpl.
  - now intros [= <- <-].
  - destruct (perform c this) as [[s this1]| |] eqn:E; try discriminate.
    intros H Hi. eapply IH; [exact H|]. eapply perform_Inv; eassumption.
Qed.

End Invariant.

(** An array as the language keeps it: [length] is at most [2^32 - 1], and
    no array index at or beyond [length] names a property. *)
Record array_ok (a : JsArray) : Prop := {
  ok_length : length a <= max_length;
  ok_beyond : forall k, length a <= k -> k < max_length -> props a !! k = None
}.

Lemma array_ok_empty : array_ok empty_array.
Proof. split; [vm_compute; discriminate|]. intros; apply lookup_empty. Qed.

Lemma array_ok_set a k v : array_ok a -> array_ok (set a k v).
Proof.
  intros [Hl Hb]. unfold set. split; simpl.
  - destruct (N.ltb_spec k max_length); lia.
  - intros k' Hk' Hmax. destruct (N.ltb_spec k max_length).
    + rewrite lookup_insert_ne by lia. apply Hb; lia.
    + rewrite lookup_insert_ne by lia. apply Hb; lia.
Qed.

Lemma array_ok_push a v a' : array_ok a -> push a v = inr a' -> array_ok a'.
Proof.
  intros [Hl Hb] H. apply push_inv in H as [Hlt ->]. split; simpl; [lia|].
  intros k Hk Hmax. rewrite lookup_insert_ne by lia. apply Hb; lia.
Qed.

Definition renderer_ok (this : ReactRenderer) : Prop := array_ok (elements this).

Lemma renderer_ok_key this : renderer_ok this -> renderer_ok (with_key this (key this + 1)).
Proof. auto. Qed.

Lemma renderer_ok_set this k :
  renderer_ok this -> renderer_ok (with_elements this (set (elements this) k null)).
Proof. apply array_ok_set. Qed.

Lemma renderer_ok_push this el a :
  renderer_ok this -> push (elements this) (object el) = inr a ->
  renderer_ok (with_elements this a).
Proof. apply array_ok_push. Qed.

(** ** Further properties of decoding *)

Lemma append_assoc (a b c : string) : (a +:+ b) +:+ c = a +:+ (b +:+ c).
Proof.
  induction a as [|x a IH]; [reflexivity|].
  change (String x ((a +:+ b) +:+ c) = String x (a +:+ (b +:+ c))).
  now rewrite IH.
Qed.

Lemma append_nil_r_string (a : string) : a +:+ "" = a.
Proof.
  induction a as [|x a IH]; [reflexivity|].
  change (String x (a +:+ "") = String x a). now rewrite IH.
Qed.

Lemma exec_token_encode_app n rest :
  exec_token (encode n +:+ rest) = Some (encode n, rest).
Proof.
  unfold encode. rewrite !append_assoc.
  apply exec_token_encode; [apply toString_digits|apply toString_nonempty].
Qed.

(** The text Marked builds from the tokens of the slots [ns]. *)
Definition tokens (ns : list N) : string :=
  fold_right (fun n s => encode n +:+ s) "" ns.

(** The array after the slots [ns] were set to [null]. *)
Definition clear_all (ns : list N) (a : JsArray) : JsArray :=
  fold_left (fun a n => set a n null) ns a.

(** X1: a text made of the tokens of pairwise different slots decodes to
    the elements of these slots in the order of the tokens, leaving out the
    slots that hold none, and clears the slots. *)
Theorem decode_tokens ns this :
  NoDup ns -> Forall (fun n => n < 2 ^ 53) ns ->
  getElements (tokens ns) this
  = Returns (filter_truthy (map (get (elements this)) ns),
             with_elements this (clear_all ns (elements this))).
Proof.
  revert this; induction ns as [|n ns IH]; intros this Hnd Hlt.
  - simpl. rewrite getElements_empty. now destruct this.
  - apply NoDup_cons in Hnd as [Hn Hnd]. apply Forall_cons in Hlt as [Hlt Hlts].
    simpl tokens. rewrite (getElements_token _ _ _ _ (exec_token_encode_app n _)).
    rewrite Number_digit_run_encode by assumption.
    rewrite IH by assumption. simpl.
    assert (E : map (get (set (elements this) n null)) ns
                = map (get (elements this)) ns).
    { apply map_ext_in. intros k Hk. apply get_set_ne.
      intros ->. apply Hn. now apply list_elem_of_In. }
    rewrite E. destruct (get (elements this) n); reflexivity.
Qed.

(** X2: a text that starts with [{{] without starting with a token is not
    read further: it becomes one span as a whole, tokens inside it are not
    expanded, and the registry stays as it is. *)
Theorem stray_braces_end_decoding text this :
  startsWith text "{{" = true -> exec_token text = None ->
  getElements text this
  = Returns ([span (key this) (unescape text)], with_key this (key this + 1)).
Proof.
  intros Hstart Etok. apply getElements_trailing; [|assumption|].
  - intros ->. discriminate.
  - rewrite (indexOf_startsWith _ _ Hstart). lia.
Qed.

(** X3: a decode changes the renderer only by setting slots to [null] and
    moving the key counter on: the options and the callback stay, the
    counter and the length of the registry do not go down, and every slot
    reads as before or reads [null]. *)
Theorem getElements_only_clears text this nodes this' :
  getElements text this = Returns (nodes, this') ->
  options this' = options this
  /\ onImageLoad this' = onImageLoad this
  /\ key this <= key this'
  /\ length (elements this) <= length (elements this')
  /\ forall k, get (elements this') k = get (elements this) k
               \/ get (elements this') k = null.
Proof. intros H. now destruct (getElements_cleared_from _ _ _ _ H). Qed.

(** X4: on a renderer whose registry has sound keys, the nodes of a decode
    have pairwise different keys, and each of them is an element that was
    in the registry or a span whose key was taken from the counter during
    this decode. *)
Theorem getElements_distinct_keys text this nodes this' :
  getElements text this = Returns (nodes, this') ->
  keys_sound this ->
  NoDup (map top_key nodes)
  /\ Forall (fun x =>
              (exists i, get (elements this) i = object x)
              \/ (exists k s, x = span k s /\ key this <= k < key this')) nodes
  /\ keys_sound this'.
Proof.
  intros H Hs. destruct (getElements_keys _ _ _ _ H Hs) as [Hnd Hfrom].
  split; [exact Hnd|]. split; [exact Hfrom|].
  eapply keys_sound_cleared; [|exact Hs]. eapply getElements_cleared_from, H.
Qed.

Lemma length_set a k v :
  length a <= k -> k < max_length -> length (set a k v) = k + 1.
Proof.
  intros Hk Hmax. unfold set; simpl.
  destruct (N.ltb_spec k max_length); lia.
Qed.

(** X5: a token that names an index at or beyond the length of the registry
    makes the registry as long as that index and one more, so that the next
    element is registered after it; if the index is the last one an array
    has, every later registration throws. *)
Theorem token_beyond_length_grows_registry ds this :
  all_digits ds = true -> ds <> "" ->
  length (elements this) <= Number ds -> Number ds < max_length ->
  let this' := with_elements this (set (elements this) (Number ds) null) in
  getElements ("{{" +:+ ds +:+ "}}") this
  = Returns (filter_truthy [get (elements this) (Number ds)], this')
  /\ length (elements this') = Number ds + 1
  /\ (Number ds + 1 < max_length ->
      forall el, exists this2,
        addElement el this' = Returns (encode (Number ds + 1), this2))
  /\ (Number ds + 1 = max_length ->
      forall el, addElement el this' = Throws RangeError).
Proof.
  intros Hd Hne Hlen Hmax this'.
  assert (Hl : length (elements this') = Number ds + 1) by now apply length_set.
  split; [|split; [exact Hl|split]].
  - rewrite (getElements_token _ _ _ _ (exec_token_encode ds "" Hd Hne)).
    rewrite (digit_run_token ds Hd Hne), getElements_empty. simpl.
    now rewrite app_nil_r.
  - intros Hlt el. unfold addElement, push. rewrite Hl.
    destruct (N.leb_spec max_length (Number ds + 1)); [lia|]. eauto.
  - intros Heq el. unfold addElement, push. rewrite Hl.
    destruct (N.leb_spec max_length (Number ds + 1)); [reflexivity|lia].
Qed.

(** ** Further properties of the callbacks *)

Lemma addElement_returns el this :
  length (elements this) < max_length ->
  addElement el this
  = Returns (encode (length (elements this)),
             with_elements this
               {| props := <[length (elements this) := object el]> (props (elements this));
                  length := length (elements this) + 1 |}).
Proof.
  intros H. unfold addElement, push.
  destruct (N.leb_spec max_length (length (elements this))); [lia|reflexivity].
Qed.

(** An element that is registered, wrapped by a container callback and
    decoded comes back as the only child of the container's element. *)
Lemma container_round_trip el tag attrs this :
  length (elements this) + 1 < max_length ->
  exists this',
    (t <- addElement el ;; p <- container tag attrs t ;; getElements p) this
    = Returns ([JsxElement tag (Some (key this)) attrs [JsxArray [el]]], this')
    /\ key this' = key this + 1
    /\ length (elements this') = length (elements this) + 2
    /\ get (elements this') (length (elements this)) = null
    /\ get (elements this') (length (elements this) + 1) = null.
Proof.
  intros Hlen. pose proof max_length_small as Hsmall.
  set (n := length (elements this)) in *.
  unfold container, bind, next_key.
  rewrite addElement_returns by (fold n; lia). fold n.
  set (this1 := with_elements this _).
  destruct (decode_live_slot (with_key this1 (key this1 + 1)) n el) as [E _].
  { lia. } { subst this1. unfold get; simpl. now rewrite lookup_insert_eq. }
  rewrite E. clear E.
  set (this2 := with_elements (with_key this1 _) _).
  assert (Hl2 : length (elements this2) = n + 1).
  { subst this2 this1; simpl. destruct (n <? max_length); lia. }
  rewrite addElement_returns by (rewrite Hl2; lia). rewrite Hl2.
  set (this3 := with_elements this2 _).
  set (p := JsxElement tag _ attrs _).
  destruct (decode_live_slot this3 (n + 1) p) as [E _].
  { lia. } { subst this3. unfold get; simpl. now rewrite lookup_insert_eq. }
  rewrite E. eexists; split; [reflexivity|]. simpl.
  split; [reflexivity|]. split; [|split].
  - destruct (n + 1 <? max_length); lia.
  - rewrite get_set_ne by lia. unfold get; simpl.
    rewrite lookup_insert_ne by lia. now rewrite lookup_insert_eq.
  - apply get_set_eq.
Qed.

(** X6: a run of text through [text] and of its token through [paragraph]
    gives a token that decodes to the paragraph with the span of the
    unescaped text as its only child; both slots used on the way are
    cleared. *)
Theorem paragraph_of_text_round_trip s this :
  length (elements this) + 1 < max_length ->
  exists this',
    (t <- text s ;; p <- paragraph t ;; getElements p) this
    = Returns ([JsxElement "p" (Some (key this + 1)) []
                  [JsxArray [span (key this) (unescape s)]]], this')
    /\ key this' = key this + 2
    /\ length (elements this') = length (elements this) + 2
    /\ get (elements this') (length (elements this)) = null
    /\ get (elements this') (length (elements this) + 1) = null.
Proof.
  intros Hlen.
  destruct (container_round_trip (span (key this) (unescape s)) "p" []
              (with_key this (key this + 1)) Hlen)
    as (this' & E & Hk & Hl & H0 & H1).
  exists this'. simpl in Hk, Hl, H0, H1.
  split; [exact E|]. split; [lia|]. auto.
Qed.

(** X7: a destination that is not empty once unescaped is accepted when
    [sanitize] is off, whatever its scheme, and when its lower-cased form
    starts with [http:] or [https:]; the element carries the unescaped
    destination as it was written, and the image the handler that calls
    the renderer's [onImageLoad]. *)
Theorem destination_accepted href title text this :
  unescape href <> "" ->
  sanitize (options this) = false
  \/ startsWith (toLowerCase (unescape href)) "http:" = true
  \/ startsWith (toLowerCase (unescape href)) "https:" = true ->
  unescapeAndSanitizeLink href this = Some (unescape href)
  /\ link href title text this
     = container "a"
         [("href", AString (unescape href)); ("title", AString title);
          ("target", AString "_blank")] text this
  /\ image href title text this
     = leaf "img"
         [("onLoad", AArrow (onImageLoad this)); ("src", AString (unescape href));
          ("title", AString title); ("alt", AString text)] [] this.
Proof.
  intros Hne Hok.
  assert (E : unescapeAndSanitizeLink href this = Some (unescape href)).
  { unfold unescapeAndSanitizeLink.
    destruct (sanitize (options this)); [|reflexivity].
    destruct Hok as [H|[H|H]]; [discriminate| |]; rewrite H; [reflexivity|].
    now rewrite orb_true_r. }
  split; [exact E|]. unfold link, image. rewrite E.
  destruct (String.eqb_spec (unescape href) ""); [contradiction|]. auto.
Qed.

(** X8: on a renderer whose array is as the language keeps it, registering
    an element writes to a slot that read [undefined] and leaves every
    element of the registry in its slot; the array stays as the language
    keeps it, through every decode and every callback. *)
Theorem registration_keeps_elements el this tok this' :
  renderer_ok this ->
  addElement el this = Returns (tok, this') ->
  get (elements this) (length (elements this)) = undefined
  /\ (forall k x, get (elements this) k = object x -> get (elements this') k = object x)
  /\ renderer_ok this'
  /\ (forall text nodes this1,
        getElements text this' = Returns (nodes, this1) -> renderer_ok this1)
  /\ (forall p out this1, run p this' = Returns (out, this1) -> renderer_ok this1).
Proof.
  intros Hok Hadd.
  assert (Hok' : renderer_ok this').
  { eapply addElement_Inv; [exact renderer_ok_push|exact Hadd|exact Hok]. }
  apply addElement_inv in Hadd as (Hlt & _ & _ & Hold & _ & _).
  assert (Hnone : get (elements this) (length (elements this)) = undefined).
  { unfold get. rewrite (ok_beyond _ Hok); [reflexivity|lia|assumption]. }
  split; [exact Hnone|]. split; [|split; [exact Hok'|split]].
  - intros k x Hk. rewrite Hold; [assumption|]. intros ->. congruence.
  - intros text nodes this1 H.
    eapply getElements_Inv; [exact renderer_ok_key|exact renderer_ok_set|exact H|exact Hok'].
  - intros p out this1 H.
    eapply run_Inv;
      [exact renderer_ok_key|exact renderer_ok_set|exact renderer_ok_push
      |exact H|exact Hok'].
Qed.

(** X9: whatever Marked does through the callbacks, starting from a
    renderer with sound keys it leaves one with sound keys, the same
    options and callback, and a key counter and a registry length that did
    not go down. *)
Theorem run_keeps_renderer_sound p this out this' :
  keys_sound this -> run p this = Returns (out, this') ->
  keys_sound this'
  /\ options this' = options this
  /\ onImageLoad this' = onImageLoad this
  /\ key this <= key this'
  /\ length (elements this) <= length (elements this').
Proof.
  intros Hs H. destruct (run_keys_sound p _ _ _ Hs H) as [Hs' []]. auto.
Qed.

(** ** Further properties of the component *)







Lemma Forall_imap {A B} (P : B -> Prop) (f : nat -> A -> B) l :
  (forall i x, P (f i x)) -> Forall P (imap f l).
Proof.
  revert f; induction l as [|x l IH]; intros f H; simpl; constructor; auto.
  apply IH. intros i y. apply H.
Qed.

Definition line_span (i : nat) (line : string) : ReactNode :=
  JsxElement "span" (Some (N.of_nat i)) []
    [JsxText line; JsxElement "br" None [] []].

Lemma keyed_apart_lines lines : keyed_apart (imap line_span lines).
Proof.
  split.
  - change (NoDup (top_key <$> imap line_span lines)).
    rewrite fmap_imap.
    rewrite (imap_ext _ (fun j _ => Some (N.of_nat j))) by reflexivity.
    rewrite imap_seq_0. apply NoDup_fmap_2; [|apply NoDup_seq].
    intros i j [= H]. lia.
  - apply Forall_imap. intros i x. simpl. eauto.
Qed.

Lemma renderPlainText_well_keyed text : well_keyed (renderPlainText text).
Proof.
  unfold renderPlainText. apply well_keyed_JsxElement. constructor; [|constructor].
  apply well_keyed_JsxArray. split; [apply keyed_apart_lines|].
  apply Forall_imap. intros i x. apply well_keyed_JsxElement.
  repeat constructor.
Qed.

(** X11: in the tree the component returns, for either format and with
    every Marked, the nodes of every array have a key each, and no two
    nodes of one array have the same key. *)
Theorem FormattedText_well_keyed props node :
  FormattedText props = Returns (Some node) -> well_keyed node.
Proof.
  unfold FormattedText. destruct (props_text props) as [t|]; [|discriminate].
  destruct (String.eqb t ""); [discriminate|].
  destruct (String.eqb (props_format props) "plain").
  { intros [= <-]. apply renderPlainText_well_keyed. }
  unfold renderMarkdown, bind.
  set (p := Marked_parse _ _). set (this := new_ReactRenderer _ _).
  destruct (run p this) as [[out this1]| |] eqn:Erun; try discriminate.
  destruct (getElements out this1) as [[nodes this2]| |] eqn:Edec; try discriminate.
  intros [= <-].
  destruct (run_keys_sound p _ _ _ (keys_sound_new _ _) Erun) as [Hs _].
  destruct (getElements_keyed_apart _ _ _ _ Edec Hs) as [Hka Hwk].
  apply well_keyed_JsxElement. constructor; [|constructor].
  now apply well_keyed_JsxArray.
Qed.

(** *** The plain format *)

(** [lines.join(c)] *)
Fixpoint join (c : ascii) (lines : list string) : string :=
  match lines with
  | [] => ""
  | line :: lines' =>
      match lines' with
      | [] => line
      | _ :: _ => line +:+ String c (join c lines')
      end
  end.

Lemma split_nonempty c s : split c s <> [].
Proof.
  intros H. pose proof (length_split c s) as L. rewrite H in L. discriminate.
Qed.

Lemma join_split c s : join c (split c s) = s.
Proof.
  induction s as [|a s IH]; [reflexivity|]. simpl split.
  pose proof (split_nonempty c s) as Hne.
  destruct (Ascii.eqb_spec a c) as [->|Hac].
  - destruct (split c s) as [|line lines]; [contradiction|].
    change (String c (join c (line :: lines)) = String c s). now rewrite IH.
  - destruct (split c s) as [|line lines]; [contradiction|].
    destruct lines as [|line' lines].
    + simpl in *. now rewrite IH.
    + change (String a (join c (line :: line' :: lines)) = String a s).
      now rewrite IH.
Qed.

Lemma split_without_separator c s :
  Forall (fun line => count_char c line = 0%nat) (split c s).
Proof.
  induction s as [|a s IH]; simpl; [repeat constructor|].
  destruct (Ascii.eqb_spec a c) as [->|Hac].
  - constructor; [reflexivity|exact IH].
  - destruct (split c s) as [|line lines]; [repeat constructor|].
    + simpl. destruct (Ascii.eqb_spec a c); [contradiction|reflexivity].
    + apply Forall_cons in IH as [H1 H2]. constructor; [|exact H2].
      simpl. destruct (Ascii.eqb_spec a c); [contradiction|exact H1].
Qed.

Lemma count_char_replace_char_same c s :
  count_char c (replace_char c "" s) = Nat.pred (count_char c s).
Proof.
  induction s as [|a s IH]; simpl; [reflexivity|].
  destruct (Ascii.eqb_spec a c) as [->|Hac]; simpl; [reflexivity|].
  destruct (Ascii.eqb_spec a c); [contradiction|exact IH].
Qed.

Lemma replace_char_absent c s : count_char c s = 0%nat -> replace_char c "" s = s.
Proof.
  induction s as [|a s IH]; simpl; [reflexivity|].
  destruct (Ascii.eqb a c); [discriminate|]. intros H. now rewrite IH.
Qed.

(** The texts of the lines of a rendered plain text. *)
Definition line_texts (node : ReactNode) : list string :=
  match node with
  | JsxElement _ _ _ [JsxArray lines] =>
      map (fun line =>
             match line with
             | JsxElement _ _ _ (JsxText s :: _) => s
             | _ => ""
             end) lines
  | _ => []
  end.

Lemma line_texts_renderPlainText text :
  line_texts (renderPlainText text) = split LF (replace_char CR "" text).
Proof.
  unfold renderPlainText, line_texts.
  generalize (split LF (replace_char CR "" text)) as lines.
  intros lines.
  change (map ?f (imap ?g lines)) with (f <$> imap g lines).
  rewrite fmap_imap.
  rewrite (imap_ext _ (const id)) by reflexivity.
  rewrite imap_const. apply list_fmap_id.
Qed.

(** X12: the texts of the lines of a rendered plain text, joined by
    newlines, are the text without its first carriage return, and none of
    them holds a newline; of the carriage returns of the text all but one
    are still there; a text without carriage returns is rendered as it
    is. *)
Theorem renderPlainText_lines text :
  let lines := line_texts (renderPlainText text) in
  join LF lines = replace_char CR "" text
  /\ Forall (fun line => count_char LF line = 0%nat) lines
  /\ count_char CR (join LF lines) = Nat.pred (count_char CR text)
  /\ (count_char CR text = 0%nat -> join LF lines = text).
Proof.
  intros lines. subst lines. rewrite line_texts_renderPlainText, join_split.
  split; [reflexivity|]. split; [apply split_without_separator|].
  split; [apply count_char_replace_char_same|apply replace_char_absent].
Qed.

(** *** Line breaks written as markup *)

Fixpoint all_spaces (s : string) : bool :=
  match s with
  | String c s' => is_space c && all_spaces s'
  | "" => true
  end.

Lemma substr_from_append a b : substr_from (strlen a) (a +:+ b) = b.
Proof. induction a as [|x a IH]; [now destruct b|]. exact IH. Qed.

Lemma replace_br_from_skip k s :
  replace_br_from k s = replace_br (substr_from k s).
Proof.
  unfold replace_br. revert k; induction s as [|c s IH]; intros k.
  - now destruct k.
  - destruct k as [|k]; [reflexivity|]. exact (IH k).
Qed.

Lemma br_match_inv s n :
  br_match s = Some n -> exists s', s = String "<" s' /\ (1 <= n)%nat.
Proof.
  destruct s as [|lt [|b [|r s']]]; try discriminate. simpl.
  destruct (Ascii.eqb_spec lt "<") as [->|]; [|discriminate]. simpl.
  destruct (_ && _); [|discriminate].
  destruct (skip_spaces s') as [k rest].
  destruct rest as [|c1 rest]; [discriminate|].
  destruct (Ascii.eqb c1 ">"); [intros [= <-]; eexists; split; [reflexivity|lia]|].
  destruct (Ascii.eqb c1 "/"); [|discriminate].
  destruct rest as [|c2 rest]; [discriminate|].
  destruct (Ascii.eqb c2 ">"); [|discriminate].
  intros [= <-]; eexists; split; [reflexivity|lia].
Qed.

Lemma replace_br_match s n :
  br_match s = Some n ->
  replace_br s = paragraph_break +:+ replace_br (substr_from n s).
Proof.
  intros H. destruct (br_match_inv _ _ H) as (s' & -> & Hn).
  unfold replace_br at 1.
  change (replace_br_from 0 (String "<" s'))
    with (match br_match (String "<" s') with
          | Some n => paragraph_break +:+ replace_br_from (n - 1) s'
          | None => String "<" (replace_br_from 0 s')
          end).
  rewrite H, replace_br_from_skip. destruct n as [|n]; [lia|].
  now replace (S n - 1)%nat with n by lia.
Qed.

Lemma replace_br_other c s :
  br_match (String c s) = None -> replace_br (String c s) = String c (replace_br s).
Proof.
  intros H. unfold replace_br.
  change (replace_br_from 0 (String c s))
    with (match br_match (String c s) with
          | Some n => paragraph_break +:+ replace_br_from (n - 1) s
          | None => String c (replace_br_from 0 s)
          end).
  now rewrite H.
Qed.

Lemma replace_br_prefix pre s :
  count_char "<" pre = 0%nat -> replace_br (pre +:+ s) = pre +:+ replace_br s.
Proof.
  induction pre as [|c pre IH]; [reflexivity|]. simpl count_char.
  destruct (Ascii.eqb_spec c "<") as [->|Hc]; [discriminate|]. intros H.
  change (String c pre +:+ s) with (String c (pre +:+ s)).
  rewrite replace_br_other.
  - rewrite IH by assumption. reflexivity.
  - destruct (br_match (String c (pre +:+ s))) as [n|] eqn:E; [|reflexivity].
    destruct (br_match_inv _ _ E) as (s' & [= -> _] & _). contradiction.
Qed.

Lemma skip_spaces_tag ws c rest :
  all_spaces ws = true -> is_space c = false ->
  skip_spaces (ws +:+ String c rest) = (strlen ws, String c rest).
Proof.
  intros Hws Hc. induction ws as [|a ws IH].
  - simpl. now rewrite Hc.
  - simpl in Hws. apply andb_prop in Hws as [Ha Hws].
    change (String a ws +:+ String c rest) with (String a (ws +:+ String c rest)).
    simpl. rewrite Ha, (IH Hws). reflexivity.
Qed.

(** X13: before the text goes to Marked, [<br>] and [<br/>], in either
    case of the letters and with any white space after the letters, become
    two line ends each, and the text between them is passed on as it is:
    a stretch of text without [<] is kept, and the replacement goes on
    after it and after each tag. *)
Theorem replace_br_tags :
  (forall pre s, count_char "<" pre = 0%nat ->
     replace_br (pre +:+ s) = pre +:+ replace_br s)
  /\ (forall s, count_char "<" s = 0%nat -> replace_br s = s)
  /\ (forall b r ws rest,
        b = "b"%char \/ b = "B"%char -> r = "r"%char \/ r = "R"%char ->
        all_spaces ws = true ->
        replace_br (String "<" (String b (String r (ws +:+ ">" +:+ rest))))
        = paragraph_break +:+ replace_br rest
        /\ replace_br (String "<" (String b (String r (ws +:+ "/>" +:+ rest))))
           = paragraph_break +:+ replace_br rest).
Proof.
  split; [exact replace_br_prefix|]. split.
  - intros s H. rewrite <- (append_nil_r_string s) at 1.
    rewrite replace_br_prefix by assumption. apply append_nil_r_string.
  - intros b r ws rest Hb Hr Hws. split.
    + rewrite (replace_br_match _ (3 + strlen ws + 1)).
      * f_equal. f_equal.
        change (substr_from (3 + strlen ws + 1) ?x)
          with (substr_from (strlen ws + 1) (ws +:+ ">" +:+ rest)).
        rewrite <- (substr_from_append (ws +:+ ">") rest) at 2.
        rewrite append_assoc, strlen_append. reflexivity.
      * simpl. destruct Hb as [-> | ->], Hr as [-> | ->]; simpl.
        all: change (ws +:+ ">" +:+ rest) with (ws +:+ String ">" rest).
        all: rewrite (skip_spaces_tag ws ">" rest Hws eq_refl); reflexivity.
    + rewrite (replace_br_match _ (3 + strlen ws + 2)).
      * f_equal. f_equal.
        change (substr_from (3 + strlen ws + 2) ?x)
          with (substr_from (strlen ws + 2) (ws +:+ "/>" +:+ rest)).
        rewrite <- (substr_from_append (ws +:+ "/>") rest) at 2.
        rewrite append_assoc, strlen_append. reflexivity.
      * simpl. destruct Hb as [-> | ->], Hr as [-> | ->]; simpl.
        all: change (ws +:+ "/>" +:+ rest) with (ws +:+ String "/" (String ">" rest)).
        all: rewrite (skip_spaces_tag ws "/" (String ">" rest) Hws eq_refl);
          reflexivity.
Qed.

(** X14: text in front of the next [{{] becomes one span holding its
    unescaped form, with the key the counter is at, and the decode goes on
    at the [{{] with the counter moved on; a text that is not empty and has
    no [{{] at all becomes one span as a whole. *)
Theorem leaked_text_becomes_spans text this :
  ((0 < indexOf text "{{")%Z ->
   let n := Z.to_nat (indexOf text "{{") in
   getElements text this
   = map_result (fun nodes => span (key this) (unescape (substr_to n text)) :: nodes)
       (getElements (substr_from n text) (with_key this (key this + 1))))
  /\ (text <> "" -> indexOf text "{{" = (-1)%Z ->
      getElements text this
      = Returns ([span (key this) (unescape text)], with_key this (key this + 1))).
Proof.
  split; [apply getElements_leak|].
  intros Hne Hidx. apply getElements_trailing; [assumption| |lia].
  unfold exec_token. destruct (startsWith text "{{") eqn:E; [|reflexivity].
  apply indexOf_startsWith in E. lia.
Qed.

End FormattedText.

Arguments AttrValue : clear implicits.
Arguments ReactNode : clear implicits.
Arguments JsValue : clear implicits.
Arguments JsArray : clear implicits.
Arguments ReactRenderer : clear implicits.
Arguments Method : clear implicits.
Arguments Locals : clear implicits.
Arguments Item : clear implicits.
Arguments IFormattedTextProps : clear implicits.
Arguments Returns {A} a.
Arguments Throws {A} e.
Arguments OutOfFuel {A}.

Notation "x <- m ;; k" := (bind m (fun x => k))
  (at level 100, m at next level, right associativity).

(** ** The development at concrete inputs *)

(** A host without callbacks of interest, the decoder above, and a Marked
    that takes its input for one paragraph of text. *)
Definition one_paragraph (src : string) (_ : MarkedOptions) : Parse :=
  Invoke (call_text src) (fun t => Invoke (call_paragraph t) Output).

Definition fresh : ReactRenderer unit := new_ReactRenderer default_options tt.

Definition strict_options : MarkedOptions :=
  spread default_options
    (Some {| set_gfm := None; set_tables := None; set_breaks := None;
             set_pedantic := None; set_sanitize := Some true;
             set_smartLists := None; set_silent := None;
             set_smartypants := None |}).

Definition rule : ReactNode unit := JsxElement "hr" (Some 0) [] [].
Definition line_break : ReactNode unit := JsxElement "br" (Some 1) [] [].

(** The renderer after [hr()] and [br()]. *)
Definition two_registered : ReactRenderer unit :=
  {| options := default_options; onImageLoad := tt; key := 2;
     elements := {| props := <[1 := object line_break]> (<[0 := object rule]> ∅);
                    length := 2 |} |}.

Example two_registered_by_callbacks :
  (_ <- hr ;; br) fresh = Returns ("{{1}}", two_registered).
Proof. reflexivity. Qed.

Definition after_rule : ReactRenderer unit :=
  {| options := default_options; onImageLoad := tt; key := 0;
     elements := {| props := <[0 := object rule]> ∅; length := 1 |} |}.

Definition rule_consumed : ReactRenderer unit :=
  {| options := default_options; onImageLoad := tt; key := 0;
     elements := {| props := <[0 := null]> (<[0 := object rule]> ∅);
                    length := 1 |} |}.

Lemma token_round_trip_witness :
  addElement rule fresh = Returns ("{{0}}", after_rule)
  /\ getElements unescape_entities "{{0}}" after_rule = Returns ([rule], rule_consumed)
  /\ getElements unescape_entities "{{0}}" rule_consumed = Returns ([], rule_consumed).
Proof.
  split; [reflexivity|].
  pose proof (token_round_trip unescape_entities rule fresh "{{0}}" after_rule eq_refl)
    as (_ & H1 & H2 & _).
  split; [exact H1 | exact H2].
Defined.

Lemma leak_absorption_witness :
  get (elements two_registered) 0 = object rule
  /\ get (elements two_registered) 1 = object line_break
  /\ exists this',
      getElements unescape_entities "{{0}}raw & text{{1}}" two_registered
      = Returns ([rule; span 2 "raw & text"; line_break], this')
      /\ key this' = 3
      /\ get (elements this') 0 = null
      /\ get (elements this') 1 = null.
Proof.
  split; [reflexivity|]. split; [reflexivity|].
  exact (leak_absorption unescape_entities two_registered rule line_break
           eq_refl eq_refl).
Defined.

Definition strict : ReactRenderer unit := new_ReactRenderer strict_options tt.

Lemma unsafe_scheme_rejected_witness :
  sanitize (options strict) = true
  /\ link unescape_entities "javascript:alert(1)" "title" "{{0}}" strict
     = Returns ("", strict)
  /\ image unescape_entities "javascript:alert(1)" "title" "alt" strict
     = Returns ("", strict).
Proof.
  split; [reflexivity|]. split.
  - exact (proj1 (proj2 (unsafe_scheme_rejected unescape_entities
             "javascript:alert(1)" "title" "{{0}}" strict eq_refl eq_refl eq_refl))).
  - exact (proj2 (proj2 (unsafe_scheme_rejected unescape_entities
             "javascript:alert(1)" "title" "alt" strict eq_refl eq_refl eq_refl))).
Defined.

Lemma empty_destination_rejected_witness :
  unescape_entities "" = ""
  /\ sanitize (options fresh) = false
  /\ link unescape_entities "" "title" "{{0}}" fresh = Returns ("", fresh)
  /\ image unescape_entities "" "title" "{{0}}" fresh = Returns ("", fresh).
Proof.
  split; [reflexivity|]. split; [reflexivity|].
  exact (empty_destination_rejected unescape_entities "" "title" "{{0}}" fresh eq_refl).
Defined.

Definition plain_props : IFormattedTextProps unit :=
  {| props_text := Some three_lines; props_format := "plain";
     props_onImageLoad := tt; props_markdownOptions := None |}.

Lemma plain_text_line_breaks_witness :
  props_text plain_props = Some three_lines
  /\ three_lines <> ""
  /\ exists node,
      FormattedText unescape_entities one_paragraph plain_props = Returns (Some node)
      /\ count_tag "br" node = 3%nat.
Proof.
  split; [reflexivity|]. split; [discriminate|].
  destruct (plain_text_line_breaks unescape_entities one_paragraph plain_props
              three_lines eq_refl ltac:(discriminate) eq_refl)
    as (node & Hnode & Hcount & _).
  exists node. split; [exact Hnode | exact Hcount].
Defined.

Definition no_text_props : IFormattedTextProps unit :=
  {| props_text := None; props_format := "markdown";
     props_onImageLoad := tt; props_markdownOptions := None |}.

Definition empty_text_props : IFormattedTextProps unit :=
  {| props_text := Some ""; props_format := "plain";
     props_onImageLoad := tt; props_markdownOptions := None |}.

Lemma empty_text_renders_null_witness :
  FormattedText unescape_entities one_paragraph no_text_props = Returns None
  /\ FormattedText unescape_entities one_paragraph empty_text_props = Returns None.
Proof.
  split.
  - exact (empty_text_renders_null unescape_entities one_paragraph no_text_props
             (or_introl eq_refl)).
  - exact (empty_text_renders_null unescape_entities one_paragraph empty_text_props
             (or_intror eq_refl)).
Defined.

(** The same text against the same, empty, registry, decoded by a renderer
    whose counter is at 0 and by one whose counter is at 1: the two spans
    differ in their key. *)
Lemma getElements_differs_with_key :
  elements fresh = elements (with_key fresh 1)
  /\ returned (getElements unescape_entities "a" fresh) = Some [span 0 "a"]
  /\ returned (getElements unescape_entities "a" (with_key fresh 1)) = Some [span 1 "a"]
  /\ returned (getElements unescape_entities "a" fresh)
     <> returned (getElements unescape_entities "a" (with_key fresh 1)).
Proof.
  split; [reflexivity|]. split; [reflexivity|]. split; [reflexivity|].
  discriminate.
Qed.

(** With the Marked above, a line of text comes out as one paragraph. *)
Example renderMarkdown_one_paragraph :
  renderMarkdown unescape_entities one_paragraph "a &lt; b" None tt
  = Returns
      (JsxElement "span" None [("className", AString "format-markdown")]
         [JsxArray
            [JsxElement "p" (Some 1) []
               [JsxArray [JsxElement "span" (Some 0) [] [JsxText "a < b"]]]]]).
Proof. reflexivity. Qed.

(** ** The further properties at concrete inputs *)

Lemma keys_sound_two_registered : keys_sound two_registered.
Proof.
  exact (proj1 (run_keys_sound unescape_entities
                  (Invoke call_hr (fun _ => Invoke call_br Output))
                  fresh "{{1}}" two_registered (keys_sound_new _ _) eq_refl)).
Qed.

Lemma renderer_ok_two_registered : renderer_ok two_registered.
Proof.
  split; [vm_compute; discriminate|]. intros k Hk _. simpl in *.
  rewrite !lookup_insert_ne by lia. apply lookup_empty.
Qed.

Lemma decode_tokens_witness :
  NoDup [1; 0]
  /\ getElements unescape_entities (tokens [1; 0]) two_registered
     = Returns ([line_break; rule],
                with_elements two_registered
                  (clear_all [1; 0] (elements two_registered))).
Proof.
  assert (H : NoDup [1; 0]).
  { apply NoDup_cons. split; [|apply NoDup_singleton].
    intros H. apply list_elem_of_singleton in H. discriminate. }
  split; [exact H|].
  apply (decode_tokens unescape_entities [1; 0] two_registered H).
  repeat constructor.
Defined.

Lemma stray_braces_end_decoding_witness :
  exec_token "{{x}}{{0}}" = None
  /\ getElements unescape_entities "{{x}}{{0}}" two_registered
     = Returns ([span 2 "{{x}}{{0}}"], with_key two_registered 3)
  /\ get (elements (with_key two_registered 3)) 0 = object rule.
Proof.
  split; [reflexivity|]. split; [|reflexivity].
  exact (stray_braces_end_decoding unescape_entities "{{x}}{{0}}" two_registered
           eq_refl eq_refl).
Defined.

Lemma getElements_only_clears_witness :
  exists nodes this',
    getElements unescape_entities "{{0}}a &amp; b" two_registered
    = Returns (nodes, this')
    /\ key two_registered <= key this'
    /\ forall k, get (elements this') k = get (elements two_registered) k
                 \/ get (elements this') k = null.
Proof.
  eexists _, _. split; [reflexivity|].
  pose proof (getElements_only_clears unescape_entities "{{0}}a &amp; b"
                two_registered _ _ eq_refl) as (_ & _ & Hk & _ & Hs).
  split; [exact Hk|exact Hs].
Defined.

Lemma getElements_distinct_keys_witness :
  exists nodes this',
    getElements unescape_entities "{{1}}a{{0}}" two_registered
    = Returns (nodes, this')
    /\ map top_key nodes = [Some 1; Some 2; Some 0]
    /\ NoDup (map top_key nodes)
    /\ keys_sound this'.
Proof.
  eexists _, _. split; [reflexivity|]. split; [reflexivity|].
  pose proof (getElements_distinct_keys unescape_entities "{{1}}a{{0}}"
                two_registered _ _ eq_refl keys_sound_two_registered)
    as (Hnd & _ & Hs).
  split; [exact Hnd|exact Hs].
Defined.

Lemma token_beyond_length_grows_registry_witness :
  (getElements unescape_entities "{{5}}" fresh
   = Returns ([], with_elements fresh (set (elements fresh) 5 null))
   /\ exists this2,
       addElement rule (with_elements fresh (set (elements fresh) 5 null))
       = Returns ("{{6}}", this2))
  /\ addElement rule (with_elements fresh (set (elements fresh) 4294967294 null))
     = Throws RangeError.
Proof.
  split.
  - pose proof (token_beyond_length_grows_registry unescape_entities "5" fresh
                  eq_refl ltac:(discriminate) ltac:(discriminate) eq_refl)
      as (H1 & _ & H3 & _).
    split; [exact H1|]. exact (H3 eq_refl rule).
  - pose proof (token_beyond_length_grows_registry unescape_entities "4294967294"
                  fresh eq_refl ltac:(discriminate) ltac:(discriminate) eq_refl)
      as (_ & _ & _ & H4).
    exact (H4 eq_refl rule).
Defined.

Lemma paragraph_of_text_round_trip_witness :
  length (elements fresh) + 1 < max_length
  /\ exists this',
      (t <- text unescape_entities "a &lt; b" ;;
       p <- paragraph unescape_entities t ;;
       getElements unescape_entities p) fresh
      = Returns ([JsxElement "p" (Some 1) [] [JsxArray [span 0 "a < b"]]], this')
      /\ key this' = 2.
Proof.
  split; [reflexivity|].
  destruct (paragraph_of_text_round_trip unescape_entities "a &lt; b" fresh eq_refl)
    as (this' & E & Hk & _).
  exists this'. split; [exact E|exact Hk].
Defined.

Lemma destination_accepted_witness :
  sanitize (options fresh) = false
  /\ link unescape_entities "javascript:alert(1)" "title" "" fresh
     = container unescape_entities "a"
         [("href", AString "javascript:alert(1)"); ("title", AString "title");
          ("target", AString "_blank")] "" fresh.
Proof.
  split; [reflexivity|].
  exact (proj1 (proj2 (destination_accepted unescape_entities
                         "javascript:alert(1)" "title" "" fresh
                         ltac:(discriminate) (or_introl eq_refl)))).
Defined.

Lemma registration_keeps_elements_witness :
  exists this',
    addElement rule two_registered = Returns ("{{2}}", this')
    /\ get (elements two_registered) 2 = undefined
    /\ get (elements this') 0 = object rule
    /\ renderer_ok this'.
Proof.
  eexists. split; [reflexivity|].
  pose proof (registration_keeps_elements unescape_entities rule two_registered
                _ _ renderer_ok_two_registered eq_refl) as (H1 & H2 & H3 & _).
  split; [exact H1|]. split; [exact (H2 0 rule eq_refl)|exact H3].
Defined.

Lemma run_keeps_renderer_sound_witness :
  exists out this',
    run unescape_entities (one_paragraph "a" default_options) fresh
    = Returns (out, this')
    /\ keys_sound this'
    /\ options this' = options fresh.
Proof.
  eexists _, _. split; [reflexivity|].
  pose proof (run_keeps_renderer_sound unescape_entities
                (one_paragraph "a" default_options) fresh _ _
                (keys_sound_new _ _) eq_refl) as (H1 & H2 & _).
  split; [exact H1|exact H2].
Defined.

Definition markdown_props : IFormattedTextProps unit :=
  {| props_text := Some "a &lt; b"; props_format := "markdown";
     props_onImageLoad := tt; props_markdownOptions := None |}.

Lemma FormattedText_well_keyed_witness :
  exists node,
    FormattedText unescape_entities one_paragraph markdown_props = Returns (Some node)
    /\ well_keyed node.
Proof.
  eexists. split; [reflexivity|].
  exact (FormattedText_well_keyed unescape_entities one_paragraph markdown_props _
           eq_refl).
Defined.

Lemma leaked_text_becomes_spans_witness :
  indexOf "a &amp; b" "{{" = (-1)%Z
  /\ getElements unescape_entities "a &amp; b" fresh
     = Returns ([span 0 "a & b"], with_key fresh 1).
Proof.
  split; [reflexivity|].
  exact (proj2 (leaked_text_becomes_spans unescape_entities "a &amp; b" fresh)
           ltac:(discriminate) eq_refl).
Defined.
